(** * docker2sh: the Dockerfile reconstructor and the instruction translator

    A shallow embedding of [docker2sh.py]: the line scanner of [main], which
    rebuilds logical instructions out of physical lines, and
    [parse_instruction] with [compress_and_b64], which turn one instruction
    into shell text.

    Text.  A Python [str] is a sequence of Unicode code points, and so is a
    [string] here: a list of numbers, written as a literal when it is ASCII.
    Whitespace ([\s], [str.strip], [str.split]) and line boundaries are
    Python's finite lists.  The word characters [\w] and [str.upper] are
    Python's on the 7-bit range, and above it they are the tables of a
    [Chr.Unicode], of which the development assumes only what holds of
    Python's tables.

    Objects.  The scanner of [main] mutates the dictionary [cur_inst] in
    place and appends that very object to [instructions]; the model keeps a
    store of dictionaries and lists of addresses, and the pure state machine
    used in the proofs is shown to compute the same output. *)

From Stdlib Require Import List Bool Arith NArith ZArith Lia.
From Stdlib Require Import Strings.Byte.
From Equations Require Import Equations.
From Equations.Prop Require Import Logic.
Import ListNotations.

Set Implicit Arguments.

(** ** Strings of code points *)

Inductive string : Set :=
| EmptyString
| String (c : N) (s : string).

Declare Scope string_scope.
Delimit Scope string_scope with string.
Bind Scope string_scope with string.

Fixpoint append (s t : string) : string :=
  match s with
  | EmptyString => t
  | String c s => String c (append s t)
  end.

Notation "s ++ t" := (append s t) : string_scope.

Definition string_of_bytes (l : list byte) : string :=
  fold_right (fun b s => String (Byte.to_N b) s) EmptyString l.

Fixpoint bytes_of_string (s : string) : option (list byte) :=
  match s with
  | EmptyString => Some []
  | String c s =>
      match Byte.of_N c, bytes_of_string s with
      | Some b, Some l => Some (b :: l)
      | _, _ => None
      end
  end.

String Notation string string_of_bytes bytes_of_string : string_scope.

Local Open Scope string_scope.

Module String.

(** [s == t] *)
Fixpoint eqb (s t : string) : bool :=
  match s, t with
  | EmptyString, EmptyString => true
  | String a s, String b t => N.eqb a b && eqb s t
  | _, _ => false
  end.

End String.

(** ** Characters *)

Module Chr.

Definition tab : N := 9.
Definition nl : N := 10.
Definition cr : N := 13.
Definition space : N := 32.
Definition dquote : N := 34.
Definition hash : N := 35.
Definition dollar : N := 36.
Definition rparen : N := 41.
Definition slash : N := 47.
Definition equals : N := 61.
Definition backslash : N := 92.
Definition underscore : N := 95.
Definition backtick : N := 96.

Definition between (lo hi : N) (c : N) : bool :=
  N.leb lo c && N.leb c hi.

(** Python's whitespace, for [\s], [str.strip] and [str.split]: the
    characters of category Zs or of bidirectional class WS, B or S.
    TAB LF VT FF CR, FS GS RS US, SPACE; NEL, NBSP, U+1680, U+2000 to
    U+200A, U+2028, U+2029, U+202F, U+205F, U+3000. *)
Definition is_space (c : N) : bool :=
  between 9 13 c || between 28 32 c
  || N.eqb c 133 || N.eqb c 160 || N.eqb c 5760
  || between 8192 8202 c
  || N.eqb c 8232 || N.eqb c 8233 || N.eqb c 8239 || N.eqb c 8287
  || N.eqb c 12288.

(** The line boundaries of [str.splitlines]: LF VT FF CR, FS GS RS, NEL,
    U+2028 and U+2029. *)
Definition is_linebreak (c : N) : bool :=
  between 10 13 c || between 28 30 c
  || N.eqb c 133 || N.eqb c 8232 || N.eqb c 8233.

Definition is_ascii (c : N) : bool := N.ltb c 128.

(** [\w] below 128: letters, digits and the underscore. *)
Definition word7 (c : N) : bool :=
  between 48 57 c || between 65 90 c || between 97 122 c
  || N.eqb c underscore.

(** [str.upper] below 128. *)
Definition upper7 (c : N) : N :=
  if between 97 122 c then (c - 32)%N else c.

(** [str.upper] works character by character: below 128 by [upper7],
    above by a table [f], which may give several characters. *)
Fixpoint upper_with (f : N -> string) (s : string) : string :=
  match s with
  | EmptyString => EmptyString
  | String c r =>
      (if is_ascii c then String (upper7 c) EmptyString else f c)
      ++ upper_with f r
  end.

(** The part of the Unicode database that the program looks at, beyond
    whitespace: the alphanumeric characters above 127 ([\w]) and the upper
    case mapping above 127.  What is assumed of them: an alphanumeric
    character is not whitespace; upper-casing deletes no character; and
    upper-casing twice is upper-casing once. *)
Class Unicode := {
  uni_word : N -> bool;
  uni_upper : N -> string;
  uni_word_not_space :
    forall c, is_ascii c = false -> uni_word c = true -> is_space c = false;
  uni_upper_not_empty :
    forall c, is_ascii c = false -> uni_upper c <> EmptyString;
  uni_upper_idempotent :
    forall c, is_ascii c = false ->
              upper_with uni_upper (uni_upper c) = uni_upper c
}.

Section Classes.

Context {U : Unicode}.

(** [\w]: alphanumeric or underscore. *)
Definition is_word (c : N) : bool :=
  if is_ascii c then word7 c else uni_word c.

End Classes.

(** Tables with nothing above 127: no alphanumeric character, and
    characters that are their own upper case. *)
Definition Plain : Unicode.
Proof.
  refine {| uni_word := fun _ => false;
            uni_upper := fun c => String c EmptyString |}.
  - discriminate.
  - discriminate.
  - intros c H. cbn. rewrite H. reflexivity.
Defined.

(** Tables with four characters of Python's above 127: U+00E9 and U+00C9
    (e acute, small and capital), U+01F0 (j caron), all alphanumeric, and
    U+030C (combining caron), which is not; the upper case of U+00E9 is
    U+00C9, and that of U+01F0 is J followed by U+030C. *)
Definition sample_word (c : N) : bool :=
  N.eqb c 233 || N.eqb c 201 || N.eqb c 496.

Definition sample_upper (c : N) : string :=
  if N.eqb c 233 then String 201 EmptyString
  else if N.eqb c 496 then String 74 (String 780 EmptyString)
  else String c EmptyString.

Definition Sample : Unicode.
Proof.
  refine {| uni_word := sample_word; uni_upper := sample_upper |}.
  - intros c _ H. unfold sample_word in H.
    repeat (apply orb_prop in H; destruct H as [H | H]);
      apply N.eqb_eq in H; subst; reflexivity.
  - intros c _. unfold sample_upper.
    destruct (N.eqb c 233); [discriminate|].
    destruct (N.eqb c 496); discriminate.
  - intros c Hc. unfold sample_upper.
    destruct (N.eqb_spec c 233); [reflexivity|].
    destruct (N.eqb_spec c 496); [reflexivity|].
    cbn [upper_with]. rewrite Hc.
    destruct (N.eqb_spec c 233); [contradiction|].
    destruct (N.eqb_spec c 496); [contradiction|]. reflexivity.
Defined.

End Chr.

(** ** Python string methods *)

Module Str.

Definition is_empty (s : string) : bool :=
  match s with EmptyString => true | String _ _ => false end.

(** [c in s] for a one-character [c]. *)
Fixpoint contains (c : N) (s : string) : bool :=
  match s with
  | EmptyString => false
  | String a r => N.eqb a c || contains c r
  end.

Fixpoint all (p : N -> bool) (s : string) : bool :=
  match s with
  | EmptyString => true
  | String a r => p a && all p r
  end.

(** [s.upper()] *)
Definition upper {U : Chr.Unicode} (s : string) : string :=
  Chr.upper_with Chr.uni_upper s.

(** The last character of [s]. *)
Fixpoint last (s : string) : option N :=
  match s with
  | EmptyString => None
  | String a EmptyString => Some a
  | String _ r => last r
  end.

(** [s.lstrip()] *)
Fixpoint lstrip (s : string) : string :=
  match s with
  | EmptyString => EmptyString
  | String a r => if Chr.is_space a then lstrip r else s
  end.

(** [s.rstrip(chars)]: a character stays unless it is one of [chars] and
    nothing survives to its right. *)
Fixpoint rstrip_chars (p : N -> bool) (s : string) : string :=
  match s with
  | EmptyString => EmptyString
  | String a r =>
      let r' := rstrip_chars p r in
      if p a && is_empty r' then EmptyString else String a r'
  end.

(** [s.rstrip()] *)
Definition rstrip (s : string) : string := rstrip_chars Chr.is_space s.

(** [s.count(c)] for a one-character [c]. *)
Fixpoint count (c : N) (s : string) : nat :=
  match s with
  | EmptyString => 0
  | String a r => (if N.eqb a c then 1 else 0) + count c r
  end.

(** [s.startswith(c)] for a one-character [c]. *)
Definition startswith (c : N) (s : string) : bool :=
  match s with
  | EmptyString => false
  | String a _ => N.eqb a c
  end.

(** [s.endswith(c)] for a one-character [c]. *)
Fixpoint endswith (c : N) (s : string) : bool :=
  match s with
  | EmptyString => false
  | String a EmptyString => N.eqb a c
  | String _ r => endswith c r
  end.

(** [s[:-1]] *)
Fixpoint chop (s : string) : string :=
  match s with
  | EmptyString => EmptyString
  | String _ EmptyString => EmptyString
  | String a r => String a (chop r)
  end.

(** [s.replace(c, by)] for a one-character [c]: every occurrence. *)
Fixpoint replace (c : N) (by_ : string) (s : string) : string :=
  match s with
  | EmptyString => EmptyString
  | String a r =>
      if N.eqb a c then by_ ++ replace c by_ r else String a (replace c by_ r)
  end.

(** [s.replace(c, by, 1)]: the first occurrence only. *)
Fixpoint replace1 (c : N) (by_ : string) (s : string) : string :=
  match s with
  | EmptyString => EmptyString
  | String a r =>
      if N.eqb a c then by_ ++ r else String a (replace1 c by_ r)
  end.

(** The longest prefix of characters in [p], and what follows it. *)
Fixpoint span (p : N -> bool) (s : string) : string * string :=
  match s with
  | EmptyString => (EmptyString, EmptyString)
  | String a r =>
      if p a then let (x, y) := span p r in (String a x, y)
      else (EmptyString, s)
  end.

(** [s.split(c)] for a one-character separator: every separator cuts, empty
    fields are kept, the empty string gives one empty field. *)
Fixpoint split_on (c : N) (s : string) : list string :=
  match s with
  | EmptyString => [EmptyString]
  | String a r =>
      if N.eqb a c then EmptyString :: split_on c r
      else match split_on c r with
           | [] => [String a EmptyString]
           | f :: fs => String a f :: fs
           end
  end.

(** [s.split()]: fields are the maximal runs of non-whitespace.  [cur] is
    the field being read ([None] between fields). *)
Fixpoint split_ws_from (cur : option string) (s : string) : list string :=
  match s with
  | EmptyString => match cur with None => [] | Some f => [f] end
  | String a r =>
      if Chr.is_space a then
        match cur with
        | None => split_ws_from None r
        | Some f => f :: split_ws_from None r
        end
      else
        match cur with
        | None => split_ws_from (Some (String a EmptyString)) r
        | Some f => split_ws_from (Some (f ++ String a EmptyString)) r
        end
  end.

Definition split_ws (s : string) : list string := split_ws_from None s.

(** [sep.join(fields)] *)
Fixpoint join (sep : string) (fields : list string) : string :=
  match fields with
  | [] => EmptyString
  | [f] => f
  | f :: fs => f ++ sep ++ join sep fs
  end.

End Str.


(** ** The three patterns of [main] *)

(** [commentre = ^\s*#], used with [match]: optional whitespace, then [#].
    [#] is not whitespace, so the greedy [\s*] never has to give back. *)
Definition commentre_match (line : string) : bool :=
  match Str.lstrip line with
  | String c _ => N.eqb c Chr.hash
  | EmptyString => false
  end.

(** [contre = ^.*\\\s*$]: a backslash reached by [.*] (so with no newline
    before it) and followed by whitespace only.  The backslash is then the
    last character that is not whitespace. *)
Definition contre_match (line : string) : bool :=
  let t := Str.rstrip line in
  Str.endswith Chr.backslash t && negb (Str.contains Chr.nl (Str.chop t)).

(** [instre]: optional whitespace, a group of word characters, whitespace,
    a group of any characters, end.  The result is the pair of groups.
    [\s] and [\w] are disjoint, so [\s*] and [\w+] take their whole runs; if
    the match fails with [\s+] on its whole run it fails on every shorter
    one.  [.] stops at a newline, and [$] accepts the end of the line or a
    last newline: what is left after the second group is nothing, or one
    character, which is then that newline. *)
Definition instre_match {U : Chr.Unicode} (line : string)
  : option (string * string) :=
  let (w, s2) := Str.span Chr.is_word (Str.lstrip line) in
  if Str.is_empty w then None else
  let (ws, r) := Str.span Chr.is_space s2 in
  if Str.is_empty ws then None else
  let (a, b) := Str.span (fun c => negb (N.eqb c Chr.nl)) r in
  match b with
  | EmptyString => Some (w, a)
  | String _ EmptyString => Some (w, a)
  | _ => None
  end.

(** [rstrip_backslash]: strip backslashes from end of line. *)
Definition rstrip_backslash (line : string) : string :=
  let line := Str.rstrip line in
  if Str.endswith Chr.backslash line then Str.chop line else line.

(** ** Dictionaries, exceptions *)

(** A logical instruction: the dictionary
    [{'instruction': ..., 'value': ...}]. *)
Record inst := { instruction : string; value : string }.

(** The dictionaries of the program: the [{}] that [cur_inst] starts as, and
    the two-key dictionaries built from a match. *)
Inductive dict :=
| EmptyDict
| InstDict (i : inst).

Inductive exn :=
| KeyError (key : string)
| IndexError
| TypeError
| OSError (path : string).

Inductive res (A : Type) :=
| Ok (a : A)
| Raise (e : exn).
Arguments Ok {A} a.
Arguments Raise {A} e.

Definition rbind {A B} (m : res A) (f : A -> res B) : res B :=
  match m with
  | Ok a => f a
  | Raise e => Raise e
  end.

Notation "x <- m ;; k" := (rbind m (fun x => k))
  (at level 61, m at next level, right associativity).

(** [d['value']] *)
Definition get_value (d : dict) : res string :=
  match d with
  | EmptyDict => Raise (KeyError "value")
  | InstDict i => Ok (value i)
  end.

(** [d['instruction']] *)
Definition get_instruction (d : dict) : res string :=
  match d with
  | EmptyDict => Raise (KeyError "instruction")
  | InstDict i => Ok (instruction i)
  end.

Definition with_value (i : inst) (v : string) : inst :=
  {| instruction := instruction i; value := v |}.

(** [d['value'] = f(d['value'])]: the key is read before it is written. *)
Definition modify_value (f : string -> string) (d : dict) : res dict :=
  match d with
  | EmptyDict => Raise (KeyError "value")
  | InstDict i => Ok (InstDict (with_value i (f (value i))))
  end.

(** ** The scanner of [main], on a store *)

Module Scan.

(** The local variables of the loop.  [heap] maps an address to the
    dictionary that lives there, [next] is the first unused address;
    [cur_inst] and the elements of [instructions] are addresses. *)
Record state := {
  heap : nat -> dict;
  next : nat;
  instructions : list nat;
  lineno : Z;
  in_continuation : bool;
  cur_inst : nat
}.

Definition store (h : nat -> dict) (a : nat) (d : dict) : nat -> dict :=
  fun x => if Nat.eqb x a then d else h x.

(** Before the loop: [instructions = []], [lineno = -1],
    [in_continuation = False], [cur_inst = {}]. *)
Definition init : state :=
  {| heap := store (fun _ => EmptyDict) 0 EmptyDict; next := 1;
     instructions := []; lineno := (-1)%Z;
     in_continuation := false; cur_inst := 0 |}.

Definition tick (st : state) : state :=
  {| heap := heap st; next := next st; instructions := instructions st;
     lineno := (lineno st + 1)%Z;
     in_continuation := in_continuation st; cur_inst := cur_inst st |}.

(** [cur_inst = {...}]: a new dictionary, at a new address. *)
Definition alloc (d : dict) (st : state) : state :=
  {| heap := store (heap st) (next st) d; next := S (next st);
     instructions := instructions st; lineno := lineno st;
     in_continuation := in_continuation st; cur_inst := next st |}.

(** [cur_inst['value'] = f(cur_inst['value'])], in place. *)
Definition modify_cur (f : string -> string) (st : state) : res state :=
  d <- modify_value f (heap st (cur_inst st)) ;;
  Ok {| heap := store (heap st) (cur_inst st) d; next := next st;
        instructions := instructions st; lineno := lineno st;
        in_continuation := in_continuation st; cur_inst := cur_inst st |}.

Definition set_continuation (b : bool) (st : state) : state :=
  {| heap := heap st; next := next st; instructions := instructions st;
     lineno := lineno st; in_continuation := b; cur_inst := cur_inst st |}.

(** [instructions.append(cur_inst)]: the object itself, not a copy. *)
Definition append_cur (st : state) : state :=
  {| heap := heap st; next := next st;
     instructions := instructions st ++ [cur_inst st];
     lineno := lineno st; in_continuation := in_continuation st;
     cur_inst := cur_inst st |}.

(** The end of the loop body, from [in_continuation = contre.match(line)]
    on.  [cur_inst is not None] holds of every dictionary. *)
Definition finish (keeptabs : bool) (line : string) (st : state) : res state :=
  let st := set_continuation (contre_match line) st in
  if negb (in_continuation st) then
    st <- (if negb keeptabs
           then modify_cur (Str.replace Chr.tab EmptyString) st
           else Ok st) ;;
    Ok (append_cur st)
  else Ok st.

Section Loop.

Context {U : Chr.Unicode}.

(** One turn of [for line in data]. *)
Definition step (keeptabs : bool) (st : state) (line : string) : res state :=
  let st := tick st in
  if commentre_match line then Ok st
  else if negb (in_continuation st) then
    match instre_match line with
    | None => Ok st
    | Some (kw, rest) =>
        finish keeptabs line
          (alloc (InstDict {| instruction := Str.upper kw;
                              value := rstrip_backslash rest |}) st)
    end
  else
    v <- get_value (heap st (cur_inst st)) ;;
    st <- (if negb (Str.is_empty v)
           then modify_cur (fun v => v ++ rstrip_backslash line) st
           else modify_cur (fun _ => rstrip_backslash (Str.lstrip line)) st) ;;
    finish keeptabs line st.

Fixpoint run (keeptabs : bool) (st : state) (data : list string) : res state :=
  match data with
  | [] => Ok st
  | line :: data => st <- step keeptabs st line ;; run keeptabs st data
  end.

End Loop.

(** What [instructions] holds when the loop is over: the dictionaries its
    elements point to, read then. *)
Definition output (st : state) : list dict :=
  List.map (heap st) (instructions st).

End Scan.

(** The Reconstructor: the list [instructions] that the loop of [main]
    builds from the lines [data]. *)
Definition reconstruct {U : Chr.Unicode} (keeptabs : bool) (data : list string)
  : res (list dict) :=
  st <- Scan.run keeptabs Scan.init data ;; Ok (Scan.output st).

(** ** The scanner as a state machine *)

(** Either between instructions, or holding the instruction that the lines
    read so far continue. *)
Inductive mode :=
| Scanning
| Continuing (i : inst).

Definition strip_tabs (keeptabs : bool) (i : inst) : inst :=
  if keeptabs then i
  else with_value i (Str.replace Chr.tab EmptyString (value i)).

Definition pfinish (keeptabs : bool) (line : string) (out : list inst) (i : inst)
  : list inst * mode :=
  if contre_match line then (out, Continuing i)
  else ((out ++ [strip_tabs keeptabs i])%list, Scanning).

Definition extend (i : inst) (line : string) : inst :=
  if negb (Str.is_empty (value i))
  then with_value i (value i ++ rstrip_backslash line)
  else with_value i (rstrip_backslash (Str.lstrip line)).

Section Machine.

Context {U : Chr.Unicode}.

Definition pstep (keeptabs : bool) (s : list inst * mode) (line : string)
  : list inst * mode :=
  if commentre_match line then s
  else match snd s with
       | Scanning =>
           match instre_match line with
           | None => s
           | Some (kw, rest) =>
               pfinish keeptabs line (fst s)
                 {| instruction := Str.upper kw; value := rstrip_backslash rest |}
           end
       | Continuing i => pfinish keeptabs line (fst s) (extend i line)
       end.

Definition prun (keeptabs : bool) (s : list inst * mode) (data : list string)
  : list inst * mode :=
  fold_left (pstep keeptabs) data s.

Definition logical (keeptabs : bool) (data : list string) : list inst :=
  fst (prun keeptabs ([], Scanning) data).

End Machine.

(** ** The translator *)

(** [posixpath.dirname]: everything up to the last slash, without its
    trailing slashes unless it is made of slashes only. *)
Module Path.

Fixpoint head (p : string) : string :=
  match p with
  | EmptyString => EmptyString
  | String a r =>
      if Str.contains Chr.slash r then String a (head r)
      else if N.eqb a Chr.slash then String a EmptyString
      else EmptyString
  end.

Definition dirname (p : string) : string :=
  let h := head p in
  if negb (Str.is_empty h) && negb (Str.all (N.eqb Chr.slash) h)
  then Str.rstrip_chars (N.eqb Chr.slash) h
  else h.

(** [posixpath.join] of two components. *)
Definition join (a b : string) : string :=
  if Str.startswith Chr.slash b then b
  else if Str.is_empty a || Str.endswith Chr.slash a then a ++ b
  else a ++ String Chr.slash b.

End Path.

(** What the RUN branch puts in place of an opening and of a closing
    backtick. *)
Definition subst_open : string := String Chr.dquote "$(".
Definition subst_close : string :=
  String Chr.rparen (String Chr.dquote EmptyString).

(** The loop of the RUN branch:
    [while '`' in val:] replace the first backtick by the opening text, then
    the first one left by the closing text.  Every turn removes a backtick. *)
Equations? backticks (val : string) : string
  by wf (Str.count Chr.backtick val) lt :=
  backticks val with inspect (Str.contains Chr.backtick val) := {
    | exist _ true H =>
        backticks (Str.replace1 Chr.backtick subst_close
                     (Str.replace1 Chr.backtick subst_open val));
    | exist _ false _ => val }.
Proof.
  unfold subst_open, subst_close.
  assert (Hlt : forall by_ s, Str.count Chr.backtick by_ = 0 ->
             Str.contains Chr.backtick s = true ->
             Str.count Chr.backtick (Str.replace1 Chr.backtick by_ s)
             < Str.count Chr.backtick s).
  { intros by_ s Hby. induction s as [|a s IH]; [discriminate|].
    cbn [Str.contains Str.count Str.replace1].
    destruct (N.eqb a Chr.backtick) eqn:E.
    - intros _. clear IH. induction by_ as [|b by_ IHb]; [simpl; lia|].
      cbn [Str.count append] in *.
      destruct (N.eqb b Chr.backtick); [discriminate|]. apply IHb, Hby.
    - cbn [Str.count]. rewrite E. intros Hs. specialize (IH Hs). lia. }
  assert (Hle : forall by_ s, Str.count Chr.backtick by_ = 0 ->
             Str.count Chr.backtick (Str.replace1 Chr.backtick by_ s)
             <= Str.count Chr.backtick s).
  { intros by_ s Hby.
    destruct (Str.contains Chr.backtick s) eqn:E.
    - apply Nat.lt_le_incl, Hlt; assumption.
    - induction s as [|a s IH]; [apply Nat.le_refl|].
      cbn [Str.contains Str.count Str.replace1] in *.
      destruct (N.eqb a Chr.backtick) eqn:Ea; [discriminate|].
      cbn [Str.count orb] in *. rewrite Ea. specialize (IH E). lia. }
  eapply Nat.le_lt_trans; [apply Hle; reflexivity|].
  apply Hlt; [reflexivity | exact H].
Qed.

(** [val.replace('$', '\\$')] *)
Definition escape_dollar (val : string) : string :=
  Str.replace Chr.dollar "\$" val.

(** Valid Dockerfile instructions. *)
Definition cmds : list string :=
  ["ADD"; "ARG"; "CMD"; "COPY"; "ENTRYPOINT"; "ENV"; "EXPOSE"; "FROM";
   "HEALTHCHECK"; "LABEL"; "MAINTAINER"; "ONBUILD"; "RUN"; "SHELL";
   "STOPSIGNAL"; "USER"; "VOLUME"; "WORKDIR"].

Definition newline : string := String Chr.nl EmptyString.

(** [xs[n]] *)
Definition index {A} (xs : list A) (n : nat) : res A :=
  match nth_error xs n with
  | Some x => Ok x
  | None => Raise IndexError
  end.

(** Files that were read, in order. *)
Inductive event :=
| Read (path : string).

(** A computation that may read files and may raise: the reads it made,
    and how it ended. *)
Definition M (A : Type) : Type := list event * res A.

Definition ret {A} (a : A) : M A := ([], Ok a).

Definition raise {A} (e : exn) : M A := ([], Raise e).

Definition lift {A} (r : res A) : M A := ([], r).

Definition bind {A B} (m : M A) (f : A -> M B) : M B :=
  match m with
  | (log, Ok a) => let (log', r) := f a in ((log ++ log')%list, r)
  | (log, Raise e) => (log, Raise e)
  end.

Notation "x <~ m ;; k" := (bind m (fun x => k))
  (at level 61, m at next level, right associativity).

Section Translator.

Context {U : Chr.Unicode}.

(** Byte strings, and the library functions on them that the COPY branch
    calls: [str.encode], [bz2.compress], [base64.b64encode],
    [bytes.decode]. *)
Variable bytes : Type.
Variable encode : string -> bytes.
Variable compress : bytes -> bytes.
Variable b64encode : bytes -> bytes.
Variable decode : bytes -> string.

(** The file system: what [open(path).read()] returns or raises. *)
Variable read_file : string -> res string.

Definition open_read (path : string) : M string :=
  match read_file path with
  | Ok text => ([Read path], Ok text)
  | Raise e => ([], Raise e)
  end.

(** [compress_and_b64]: compress a file and turn it to base64 for output.
    [basepath] is [None] for the default argument. *)
Definition compress_and_b64 (file : string) (basepath : option string) : M string :=
  let spl := Str.split_ws file in
  file <~ (match basepath with
           | Some (String _ _ as b) =>
               s0 <~ lift (index spl 0) ;; open_read (Path.join b s0)
           | _ =>
               s0 <~ lift (index spl 0) ;; open_read s0
           end) ;;
  let comp := compress (encode file) in
  let b64 := b64encode comp in
  s1 <~ lift (index spl 1) ;;
  let cat := "cat << __EOFF__ | base64 -d | bunzip2 > " ++ s1 in
  ret (Str.join newline [cat; decode b64; "__EOFF__"] ++ newline).

Definition named (ins name : string) : bool := String.eqb ins name.

(** [parse_instruction]: translate one Dockerfile instruction to shell
    script.  [dfile] is [None] for the default argument. *)
Definition parse_instruction (inst : dict) (dfile : option string) : M string :=
  ins <~ lift (get_instruction inst) ;;
  let ins := Str.upper ins in
  val <~ lift (get_value inst) ;;
  if named ins "ADD" then
    let val := escape_dollar val in
    let args := Str.split_on Chr.space val in
    a1 <~ lift (index args 1) ;;
    a0 <~ lift (index args 0) ;;
    ret ("wget -O " ++ a1 ++ " " ++ a0 ++ newline)
  else if named ins "ARG" then
    ret (val ++ newline)
  else if named ins "ENV" then
    let val := if negb (Str.contains Chr.equals val)
               then Str.replace1 Chr.space "=" val else val in
    let val := escape_dollar val in
    ret ("export " ++ val ++ newline)
  else if named ins "RUN" then
    let val := backticks val in
    ret (escape_dollar val ++ newline)
  else if named ins "WORKDIR" then
    ret ("mkdir -p " ++ val ++ " && cd " ++ val ++ newline)
  else if named ins "COPY" then
    match dfile with
    | None => raise TypeError
    | Some dfile =>
        if Str.contains Chr.slash dfile
        then compress_and_b64 val (Some (Path.dirname dfile))
        else compress_and_b64 val None
    end
  else if existsb (String.eqb ins) cmds then
    ret ("#" ++ newline ++ "# " ++ ins ++ " not implemented" ++ newline
         ++ "# Instruction: " ++ ins ++ " " ++ val ++ newline
         ++ "#" ++ newline)
  else
    ret EmptyString.

(** The shell branch of [main]:
    [script = '#!/bin/sh\n'], then
    [script += parse_instruction(i, dfile=args.Dockerfile)] for every
    instruction.  An exception ends the loop and leaves [main]. *)
Fixpoint assemble (dfile : string) (script : string) (instructions : list dict)
  : M string :=
  match instructions with
  | [] => ret script
  | i :: rest =>
      frag <~ parse_instruction i (Some dfile) ;;
      assemble dfile (script ++ frag) rest
  end.

Definition shell_script (keeptabs : bool) (dfile : string) (data : list string)
  : M string :=
  instructions <~ lift (reconstruct keeptabs data) ;;
  assemble dfile ("#!/bin/sh" ++ newline) instructions.

(** [parse_instruction] on the dictionary of an instruction [ins] with
    value [val]. *)
Definition translate (ins val : string) (dfile : option string) : M string :=
  parse_instruction (InstDict {| instruction := ins; value := val |}) dfile.

End Translator.

(** ** Notions used to state the properties *)

(** The spec's reading of the RUN loop: one pass from left to right, in
    which backticks are alternately an opening and a closing delimiter. *)
Fixpoint pair_up (inside : bool) (s : string) : string :=
  match s with
  | EmptyString => EmptyString
  | String a r =>
      if N.eqb a Chr.backtick
      then (if inside then subst_close else subst_open) ++ pair_up (negb inside) r
      else String a (pair_up inside r)
  end.

(** The file that COPY reads for the source [src]: in the directory of the
    Dockerfile when its path has a slash, else as [src] is written. *)
Definition source_path (dfile src : string) : string :=
  if Str.contains Chr.slash dfile
  then Path.join (Path.dirname dfile) src
  else src.

(** [s] between double quotes. *)
Definition quoted (s : string) : string :=
  String Chr.dquote (s ++ String Chr.dquote EmptyString).

(** [piece] is text of [line] that stops right before a backslash after
    which [line] has whitespace only: the trailing backslash is cut off. *)
Definition cut (line piece : string) : Prop :=
  exists pre ws,
    line = pre ++ piece ++ String Chr.backslash ws /\
    Str.all Chr.is_space ws = true.

(** [s] occurs in [line]. *)
Definition within (line s : string) : Prop :=
  exists pre post, line = pre ++ s ++ post.

Fixpoint cat (pieces : list string) : string :=
  match pieces with
  | [] => EmptyString
  | p :: ps => p ++ cat ps
  end.

(** Tab removal as the configuration asks for it. *)
Definition untab (keeptabs : bool) (v : string) : string :=
  if keeptabs then v else Str.replace Chr.tab EmptyString v.

Section Lines.

Context {U : Chr.Unicode}.

(** The instruction that a line makes when it stands alone. *)
Definition alone (keeptabs : bool) (line : string) : option inst :=
  match instre_match line with
  | Some (kw, rest) =>
      Some (strip_tabs keeptabs
              {| instruction := Str.upper kw; value := rstrip_backslash rest |})
  | None => None
  end.

(** The lines that match the instruction pattern, as instructions, in the
    order of the lines. *)
Fixpoint matching (keeptabs : bool) (data : list string) : list inst :=
  match data with
  | [] => []
  | line :: data =>
      match alone keeptabs line with
      | Some i => i :: matching keeptabs data
      | None => matching keeptabs data
      end
  end.

Definition matches (line : string) : bool :=
  match instre_match line with Some _ => true | None => false end.

End Lines.

(** Reading in text mode translates line ends: CR LF and CR become LF. *)
Fixpoint universal_newlines (s : string) : string :=
  match s with
  | EmptyString => EmptyString
  | String a r =>
      if N.eqb a Chr.cr then
        String Chr.nl
          match r with
          | String b r' =>
              if N.eqb b Chr.nl then universal_newlines r'
              else universal_newlines r
          | EmptyString => EmptyString
          end
      else String a (universal_newlines r)
  end.

(** [open(path).read()] over files of bytes: [open] gives the bytes of the
    file or raises; reading decodes them as text, line ends translated, or
    raises. *)
Definition read_text {bytes : Type} (file_bytes : string -> res bytes)
    (decode_text : bytes -> res string) (path : string) : res string :=
  b <- file_bytes path ;; decode_text b.

(** A small world to run the translator in: the tables have nothing above
    127, bytes are text, the library functions only mark what they were
    given, and two files exist, one of them with a CR LF line end. *)
Module World.

Definition encode (s : string) : string := s.
Definition compress (b : string) : string := "bz2(" ++ b ++ ")".
Definition b64encode (b : string) : string := "b64(" ++ b ++ ")".
Definition decode (b : string) : string := b.

Definition crlf_bytes : string :=
  "a" ++ String Chr.cr (String Chr.nl "b").

Definition file_bytes (path : string) : res string :=
  if String.eqb path "ctx/app.conf" then Ok "port=80"
  else if String.eqb path "crlf.txt" then Ok crlf_bytes
  else Raise (OSError path).

Definition decode_text (b : string) : res string :=
  Ok (universal_newlines b).

Definition read_file : string -> res string :=
  read_text file_bytes decode_text.

Definition translate : string -> string -> option string -> M string :=
  translate (U := Chr.Plain) encode compress b64encode decode read_file.

End World.

(** ** The store and the state machine, side by side *)

Module Sim.

Import Scan.

(** The machine state [(out, m)] describes the store state [st]: [out] is
    what [instructions] points to, and an instruction in progress is the
    dictionary at [cur_inst], which [instructions] does not hold yet. *)
Record sim (st : state) (out : list inst) (m : mode) : Prop := {
  sim_out : output st = List.map InstDict out;
  sim_old : Forall (fun a => a < next st) (instructions st);
  sim_cur : cur_inst st < next st;
  sim_mode :
    match m with
    | Scanning => in_continuation st = false
    | Continuing i =>
        in_continuation st = true /\
        heap st (cur_inst st) = InstDict i /\
        ~ In (cur_inst st) (instructions st)
    end
}.

End Sim.

(** ** Where the value of an instruction comes from *)

(** [lp = (line, piece)]: a continued line of [data] and the text it
    gives, its trailing backslash cut off. *)
Definition from_continued (data : list string) (lp : string * string) : Prop :=
  In (fst lp) data /\ contre_match (fst lp) = true /\ cut (fst lp) (snd lp).

Section Provenance.

Context {U : Chr.Unicode}.

(** [k] is the keyword that a line of [data] gives: the upper case of the
    word characters, at least one, that the instruction pattern matches at
    the head of that line.  It is not empty; and when those characters are
    ASCII, [k] is made of ASCII word characters, none of them a small
    letter. *)
Definition keyword_ok (data : list string) (k : string) : Prop :=
  k <> EmptyString /\
  exists line kw rest,
    In line data /\ instre_match line = Some (kw, rest) /\
    kw <> EmptyString /\ Str.all Chr.is_word kw = true /\
    k = Str.upper kw /\
    (Str.all Chr.is_ascii kw = true ->
     Str.all Chr.word7 k = true /\
     Str.all (fun c => negb (Chr.between 97 122 c)) k = true).

(** An instruction still being read: its value is the pieces of the
    continued lines read so far, one after the other. *)
Definition in_progress (data : list string) (i : inst) : Prop :=
  keyword_ok data (instruction i) /\
  exists pieces,
    Forall (from_continued data) pieces /\
    value i = cat (List.map snd pieces).

(** An instruction of the output: the pieces of its continued lines, then
    the stripped text [s] of its last line [l], which is not continued;
    tabs removed unless they are kept. *)
Definition emitted (keeptabs : bool) (data : list string) (i : inst) : Prop :=
  keyword_ok data (instruction i) /\
  (keeptabs = false -> Str.contains Chr.tab (value i) = false) /\
  exists pieces l s,
    Forall (from_continued data) pieces /\
    In l data /\ contre_match l = false /\ within l s /\
    value i = untab keeptabs (cat (List.map snd pieces) ++ rstrip_backslash s).

Definition inv (keeptabs : bool) (data : list string) (s : list inst * mode)
  : Prop :=
  Forall (emitted keeptabs data) (fst s) /\
  match snd s with
  | Scanning => True
  | Continuing i => in_progress data i
  end.

End Provenance.

(** A line with a tab in its value. *)
Definition tabbed : string := "RUN a" ++ String Chr.tab "b".

(** ** The rest of [main]: input and output *)

Module Cli.

Definition is_linebreak : N -> bool := Chr.is_linebreak.

Definition cr : N := Chr.cr.

(** [text.splitlines()]: a boundary ends the line being read, which may be
    empty; CR LF is one boundary; what follows the last boundary is a line
    if it is not empty.  [after_cr] says that the previous character was a
    CR, [cur] is the line being read. *)
Fixpoint splitlines_from (after_cr : bool) (cur : string) (text : string)
  : list string :=
  match text with
  | EmptyString => if Str.is_empty cur then [] else [cur]
  | String a r =>
      if N.eqb a Chr.nl && after_cr then splitlines_from false cur r
      else if is_linebreak a
           then cur :: splitlines_from (N.eqb a cr) EmptyString r
           else splitlines_from false (cur ++ String a EmptyString) r
  end.

Definition splitlines (text : string) : list string :=
  splitlines_from false EmptyString text.

(** What [parse_args] returns. *)
Record args := {
  json : bool;
  shell : bool;
  keeptabs : bool;
  Dockerfile : string
}.

Section Main.

Context {U : Chr.Unicode}.

Variable bytes : Type.
Variable encode : string -> bytes.
Variable compress : bytes -> bytes.
Variable b64encode : bytes -> bytes.
Variable decode : bytes -> string.
Variable read_file : string -> res string.

(** [stdin.read()], and [json.dumps] on a list of dictionaries. *)
Variable stdin_read : res string.
Variable dumps : list dict -> string.

(** [main]: main parsing routine.  The result is what is given to [print]:
    the JSON text when [--json] is set, the shell script otherwise. *)
Definition main (a : args) : M string :=
  text <~ (if negb (String.eqb (Dockerfile a) "-")
           then open_read read_file (Dockerfile a)
           else lift stdin_read) ;;
  let data := splitlines text in
  instructions <~ lift (reconstruct (keeptabs a) data) ;;
  if json a then ret (dumps instructions)
  else assemble encode compress b64encode decode read_file
         (Dockerfile a) ("#!/bin/sh" ++ newline) instructions.

End Main.

End Cli.

(** Input and output for the small world: a Dockerfile on the standard
    input, and a printer that lists the keywords. *)
Module WorldIO.

Definition stdin_text : string := "FROM debian" ++ newline ++ "ADD pkg.tgz".

Definition stdin_read : res string := Ok stdin_text.

Fixpoint dumps (ds : list dict) : string :=
  match ds with
  | [] => EmptyString
  | EmptyDict :: ds => "{} " ++ dumps ds
  | InstDict i :: ds => instruction i ++ " " ++ dumps ds
  end.

Definition main : Cli.args -> M string :=
  Cli.main (U := Chr.Plain) World.encode World.compress World.b64encode World.decode
    World.read_file stdin_read dumps.

End WorldIO.

(** ** More notions used to state properties *)

(** Every dollar sign of [s] comes right after a backslash; [after_bs]
    says whether a backslash comes right before [s]. *)
Fixpoint guarded_from (after_bs : bool) (s : string) : bool :=
  match s with
  | EmptyString => true
  | String a r =>
      (if N.eqb a Chr.dollar then after_bs else true)
      && guarded_from (N.eqb a Chr.backslash) r
  end.

Definition guarded (s : string) : bool := guarded_from false s.

(** The lines at which the scanner can emit an instruction: neither a
    comment nor continued. *)
Definition closing (line : string) : bool :=
  negb (commentre_match line) && negb (contre_match line).

(** The instruction that the scanner holds in progress after the lines
    [data]: the dictionary [cur_inst] when [in_continuation] is set. *)
Definition pending {U : Chr.Unicode} (keeptabs : bool) (data : list string)
  : option inst :=
  match Scan.run keeptabs Scan.init data with
  | Ok st =>
      if Scan.in_continuation st then
        match Scan.heap st (Scan.cur_inst st) with
        | InstDict i => Some i
        | EmptyDict => None
        end
      else None
  | Raise _ => None
  end.

(** The instructions that are known and not translated. *)
Definition unimplemented : list string :=
  ["CMD"; "ENTRYPOINT"; "EXPOSE"; "FROM"; "HEALTHCHECK"; "LABEL";
   "MAINTAINER"; "ONBUILD"; "SHELL"; "STOPSIGNAL"; "USER"; "VOLUME"].

(** ** Tactics *)

(** Boolean tests on code points, as arithmetic. *)
Ltac to_arith :=
  unfold Chr.is_space, Chr.is_linebreak, Chr.word7, Chr.is_ascii,
    Chr.between, Chr.underscore, Chr.backslash, Chr.tab, Chr.nl, Chr.cr,
    Chr.space, Chr.hash in *;
  repeat match goal with
         | H : _ && _ = true |- _ => apply andb_prop in H; destruct H
         | H : _ || _ = true |- _ => apply orb_prop in H; destruct H
         | H : _ || _ = false |- _ => apply orb_false_elim in H; destruct H
         | H : N.leb _ _ = true |- _ => apply N.leb_le in H
         | H : N.leb _ _ = false |- _ => apply N.leb_gt in H
         | H : N.ltb _ _ = true |- _ => apply N.ltb_lt in H
         | H : N.ltb _ _ = false |- _ => apply N.ltb_ge in H
         | H : N.eqb _ _ = true |- _ => apply N.eqb_eq in H
         | H : N.eqb _ _ = false |- _ => apply N.eqb_neq in H
         end.

Ltac fields :=
  cbn [Scan.tick Scan.alloc Scan.set_continuation Scan.append_cur
       Scan.heap Scan.next Scan.instructions Scan.lineno
       Scan.in_continuation Scan.cur_inst].

Ltac decide_named :=
  repeat match goal with
         | |- context [named ?a ?b] =>
             let v := eval vm_compute in (named a b) in
             change (named a b) with v
         end.

Ltac dispatch kw :=
  unfold translate, parse_instruction;
  cbn [lift get_instruction get_value bind instruction value];
  change (Str.upper kw) with kw;
  decide_named; cbv iota.


(** ** Characters and strings: lemmas *)

Lemma string_eqb_eq s t : String.eqb s t = true <-> s = t.
Proof.
  revert t. induction s as [|a s IH]; intros [|b t]; simpl;
    try (split; [discriminate | discriminate]); [tauto|].
  rewrite andb_true_iff, N.eqb_eq, IH.
  split; [intros [-> ->]; reflexivity | intros E; inversion E; auto].
Qed.

Lemma string_eqb_neq s t : String.eqb s t = false <-> s <> t.
Proof.
  rewrite <- string_eqb_eq. destruct (String.eqb s t); split; congruence.
Qed.

Lemma app_nil_r (s : string) : s ++ "" = s.
Proof. induction s as [|a s IH]; simpl; [reflexivity | now rewrite IH]. Qed.

Lemma app_assoc (s t u : string) : (s ++ t) ++ u = s ++ t ++ u.
Proof. induction s as [|a s IH]; simpl; [reflexivity | now rewrite IH]. Qed.

Section CharClasses.

Context {U : Chr.Unicode}.

Lemma word_not_backslash c :
  Chr.is_word c = true -> N.eqb c Chr.backslash = false.
Proof.
  unfold Chr.is_word. intros H. apply N.eqb_neq.
  destruct (Chr.is_ascii c) eqn:E; to_arith; lia.
Qed.

Lemma word_not_space c : Chr.is_word c = true -> Chr.is_space c = false.
Proof.
  unfold Chr.is_word. intros H.
  destruct (Chr.is_ascii c) eqn:E; [|now apply Chr.uni_word_not_space].
  destruct (Chr.is_space c) eqn:Es; [|reflexivity].
  exfalso. to_arith; lia.
Qed.

Lemma upper_app s t : Str.upper (s ++ t) = Str.upper s ++ Str.upper t.
Proof.
  unfold Str.upper. induction s as [|a s IH]; simpl; [reflexivity|].
  now rewrite IH, app_assoc.
Qed.

Lemma upper7_ascii c : Chr.is_ascii c = true -> Chr.is_ascii (Chr.upper7 c) = true.
Proof.
  unfold Chr.upper7. intros H.
  destruct (Chr.between 97 122 c) eqn:E; [|exact H].
  unfold Chr.is_ascii. apply N.ltb_lt. to_arith. lia.
Qed.

Lemma upper7_upper7 c : Chr.upper7 (Chr.upper7 c) = Chr.upper7 c.
Proof.
  unfold Chr.upper7.
  destruct (Chr.between 97 122 c) eqn:E; [|now rewrite E].
  destruct (Chr.between 97 122 (c - 32)) eqn:E2; [|reflexivity].
  exfalso. to_arith. lia.
Qed.

Lemma upper_idempotent s : Str.upper (Str.upper s) = Str.upper s.
Proof.
  induction s as [|a s IH]; [reflexivity|].
  change (Str.upper (String a s))
    with ((if Chr.is_ascii a then String (Chr.upper7 a) EmptyString
           else Chr.uni_upper a) ++ Str.upper s).
  rewrite upper_app, IH. f_equal.
  destruct (Chr.is_ascii a) eqn:E.
  - unfold Str.upper. cbn [Chr.upper_with].
    now rewrite upper7_ascii, upper7_upper7.
  - now apply Chr.uni_upper_idempotent.
Qed.

Lemma upper_not_empty s : s <> "" -> Str.upper s <> "".
Proof.
  destruct s as [|a s]; [contradiction|]. intros _.
  unfold Str.upper. cbn [Chr.upper_with].
  destruct (Chr.is_ascii a) eqn:E; [discriminate|].
  pose proof (Chr.uni_upper_not_empty a E) as H.
  destruct (Chr.uni_upper a); [contradiction | discriminate].
Qed.

(** The upper case of ASCII word characters: ASCII word characters, no
    small letter among them. *)
Lemma upper_ascii_word s :
  Str.all Chr.is_word s = true -> Str.all Chr.is_ascii s = true ->
  Str.all Chr.word7 (Str.upper s) = true /\
  Str.all (fun c => negb (Chr.between 97 122 c)) (Str.upper s) = true.
Proof.
  unfold Str.upper. induction s as [|a s IH]; [split; reflexivity|].
  cbn [Str.all Chr.upper_with]. intros Hw Ha.
  apply andb_prop in Hw. destruct Hw as [Hw Hws].
  apply andb_prop in Ha. destruct Ha as [Ha Has].
  destruct (IH Hws Has) as [IH1 IH2].
  rewrite Ha. cbn [append Str.all]. rewrite IH1, IH2, !andb_true_r.
  unfold Chr.is_word in Hw. rewrite Ha in Hw. unfold Chr.upper7.
  destruct (Chr.between 97 122 a) eqn:E.
  - split.
    + unfold Chr.word7.
      assert (H : Chr.between 65 90 (a - 32) = true).
      { unfold Chr.between. apply andb_true_intro.
        split; apply N.leb_le; to_arith; lia. }
      rewrite H. now rewrite orb_true_r.
    + apply negb_true_iff.
      destruct (Chr.between 97 122 (a - 32)) eqn:E2; [|reflexivity].
      exfalso. clear Hw. to_arith. lia.
  - split; [exact Hw | now rewrite E].
Qed.

End CharClasses.

Lemma all_app p (s t : string) :
  Str.all p (s ++ t) = Str.all p s && Str.all p t.
Proof.
  induction s as [|a s IH]; simpl; [reflexivity|].
  rewrite IH. apply andb_assoc.
Qed.

Lemma contains_app c (s t : string) :
  Str.contains c (s ++ t) = Str.contains c s || Str.contains c t.
Proof.
  induction s as [|a s IH]; simpl; [reflexivity|].
  rewrite IH. apply orb_assoc.
Qed.

Lemma is_empty_true s : Str.is_empty s = true -> s = "".
Proof. destruct s; [reflexivity | discriminate]. Qed.

Lemma span_spec p s x y :
  Str.span p s = (x, y) -> s = x ++ y /\ Str.all p x = true.
Proof.
  revert x y. induction s as [|a s IH]; simpl; intros x y H.
  - inversion H. split; reflexivity.
  - destruct (p a) eqn:Ea.
    + destruct (Str.span p s) as [x' y'] eqn:Es. inversion H; subst.
      destruct (IH _ _ eq_refl) as [-> Hx]. simpl. rewrite Ea. split; auto.
    + inversion H. split; reflexivity.
Qed.

Lemma lstrip_spec s :
  exists ws, s = ws ++ Str.lstrip s /\ Str.all Chr.is_space ws = true.
Proof.
  induction s as [|a s [ws [IH1 IH2]]]; simpl.
  - exists "". split; reflexivity.
  - destruct (Chr.is_space a) eqn:Ea.
    + exists (String a ws). simpl. rewrite Ea, IH2. split; [now rewrite <- IH1 | reflexivity].
    + exists "". split; reflexivity.
Qed.

Section Rstrip.

Variable p : N -> bool.

Lemma rstrip_spec s :
  exists ws, s = Str.rstrip_chars p s ++ ws /\ Str.all p ws = true.
Proof.
  induction s as [|a s [ws [IH1 IH2]]]; simpl.
  - exists "". split; reflexivity.
  - destruct (p a) eqn:Ea; simpl.
    + destruct (Str.rstrip_chars p s) eqn:Er; simpl.
      * exists (String a ws). simpl. rewrite Ea, IH2. simpl in IH1.
        split; [now rewrite <- IH1 | reflexivity].
      * exists ws. split; [simpl; f_equal; exact IH1 | assumption].
    + exists ws. split; [simpl; f_equal; exact IH1 | assumption].
Qed.

Lemma rstrip_all s : Str.all p s = true -> Str.rstrip_chars p s = "".
Proof.
  induction s as [|a s IH]; simpl; [reflexivity|].
  intros H. apply andb_prop in H. destruct H as [Ha Hs].
  rewrite IH, Ha by assumption. reflexivity.
Qed.

Lemma rstrip_empty s : Str.rstrip_chars p s = "" -> Str.all p s = true.
Proof.
  induction s as [|a s IH]; simpl; [reflexivity|].
  destruct (p a); simpl; [|discriminate].
  destruct (Str.rstrip_chars p s); simpl; [|discriminate].
  intros _. now apply IH.
Qed.

Lemma rstrip_app s t :
  Str.rstrip_chars p t <> "" ->
  Str.rstrip_chars p (s ++ t) = s ++ Str.rstrip_chars p t.
Proof.
  intros Ht. induction s as [|a s IH]; simpl; [reflexivity|].
  rewrite IH. destruct (s ++ Str.rstrip_chars p t) eqn:E.
  - destruct s; simpl in E; [contradiction | discriminate].
  - simpl. now rewrite andb_false_r.
Qed.

Lemma rstrip_app_all s t :
  Str.all p t = true -> Str.rstrip_chars p (s ++ t) = Str.rstrip_chars p s.
Proof.
  intros Ht. induction s as [|a s IH]; simpl.
  - now apply rstrip_all.
  - now rewrite IH.
Qed.

End Rstrip.

Lemma endswith_app c s t :
  t <> "" -> Str.endswith c (s ++ t) = Str.endswith c t.
Proof.
  intros Ht. induction s as [|a s IH]; [reflexivity|].
  simpl. destruct (s ++ t) eqn:E.
  - destruct s; simpl in E; [contradiction | discriminate].
  - exact IH.
Qed.

Lemma endswith_chop c s :
  Str.endswith c s = true -> s = Str.chop s ++ String c "".
Proof.
  induction s as [|a s IH]; simpl; [discriminate|].
  destruct s as [|b s].
  - intros H. apply N.eqb_eq in H. now subst.
  - intros H. simpl. f_equal. apply IH, H.
Qed.

Lemma endswith_all (p : N -> bool) c s :
  (forall a, p a = true -> N.eqb a c = false) ->
  Str.all p s = true -> Str.endswith c s = false.
Proof.
  intros Hp. induction s as [|a s IH]; simpl; [reflexivity|].
  intros H. apply andb_prop in H. destruct H as [Ha Hs].
  destruct s; [now apply Hp | now apply IH].
Qed.

(** What [rstrip_backslash] returns on text whose stripped form ends in a
    backslash: the text before that backslash. *)
Lemma rstrip_backslash_cut pre s tail :
  Str.all Chr.is_space tail = true ->
  Str.rstrip s <> "" ->
  Str.endswith Chr.backslash (Str.rstrip (pre ++ s ++ tail)) = true ->
  exists ws, Str.all Chr.is_space ws = true /\
             s = rstrip_backslash s ++ String Chr.backslash ws.
Proof.
  unfold Str.rstrip, rstrip_backslash. intros Htail Hne H.
  rewrite <- app_assoc, rstrip_app_all in H by assumption.
  rewrite rstrip_app, endswith_app in H by assumption.
  unfold Str.rstrip. rewrite H.
  destruct (rstrip_spec Chr.is_space s) as [ws [Hs Hws]].
  exists ws. split; [assumption|].
  apply endswith_chop in H.
  rewrite Hs at 1. rewrite H at 1. rewrite app_assoc. reflexivity.
Qed.


(** ** The store scanner and the state machine agree *)

Module SimFacts.

Import Scan Sim.

Lemma store_same h a d : store h a d a = d.
Proof. unfold store. now rewrite Nat.eqb_refl. Qed.

Lemma map_store_fresh h a d l :
  ~ In a l -> List.map (store h a d) l = List.map h l.
Proof.
  intros Hn. apply map_ext_in. intros x Hx. unfold store.
  destruct (Nat.eqb_spec x a); [subst; contradiction | reflexivity].
Qed.

Lemma below_fresh n l : Forall (fun a => a < n) l -> ~ In n l.
Proof.
  intros H Hin. rewrite Forall_forall in H. specialize (H _ Hin). lia.
Qed.

Lemma sim_init : sim init [] Scanning.
Proof. constructor; simpl; auto. Qed.

(** The end of the loop body, on a state whose current dictionary is [i]
    and is not in [instructions] yet. *)
Lemma finish_sim keeptabs line st out i :
  output st = List.map InstDict out ->
  Forall (fun a => a < next st) (instructions st) ->
  cur_inst st < next st ->
  heap st (cur_inst st) = InstDict i ->
  ~ In (cur_inst st) (instructions st) ->
  exists st',
    finish keeptabs line st = Ok st' /\
    sim st' (fst (pfinish keeptabs line out i)) (snd (pfinish keeptabs line out i)).
Proof.
  intros Hout Hold Hcur Hi Hfresh.
  unfold finish, pfinish. fields.
  destruct (contre_match line); cbn [negb fst snd].
  - eexists. split; [reflexivity|].
    constructor; cbn; auto.
  - destruct keeptabs; cbn [negb strip_tabs].
    + cbn [rbind]. eexists. split; [reflexivity|].
      constructor; cbn; auto.
      * unfold output in *. cbn. rewrite !map_app, Hout. cbn. now rewrite Hi.
      * apply Forall_app. split; [assumption | constructor; auto].
    + unfold modify_cur. fields. rewrite Hi. cbn [modify_value rbind].
      eexists. split; [reflexivity|].
      constructor; cbn; auto.
      * unfold output in *. cbn. rewrite !map_app.
        rewrite map_store_fresh, Hout by assumption. cbn.
        now rewrite store_same.
      * apply Forall_app. split; [assumption | constructor; auto].
Qed.

Section Agree.

Context {U : Chr.Unicode}.

Lemma step_sim keeptabs line st out m :
  sim st out m ->
  exists st',
    step keeptabs st line = Ok st' /\
    sim st' (fst (pstep keeptabs (out, m) line))
            (snd (pstep keeptabs (out, m) line)).
Proof.
  intros [Hout Hold Hcur Hmode].
  unfold step, pstep. cbn [fst snd].
  destruct (commentre_match line).
  - eexists. split; [reflexivity|]. constructor; cbn; auto.
  - fields.
    destruct m as [|i].
    + rewrite Hmode. cbn [negb].
      destruct (instre_match line) as [[kw rest]|].
      * apply finish_sim; cbn; auto.
        -- unfold output in *. cbn.
           rewrite map_store_fresh by now apply below_fresh. exact Hout.
        -- eapply Forall_impl; [|exact Hold]. cbn. intros; lia.
        -- apply store_same.
        -- now apply below_fresh.
      * eexists. split; [reflexivity|]. constructor; cbn; auto.
    + destruct Hmode as [Hc [Hi Hfresh]]. rewrite Hc. cbn [negb].
      rewrite Hi. cbn [get_value rbind]. unfold extend, modify_cur.
      fields. rewrite Hi. cbn [modify_value rbind].
      destruct (Str.is_empty (value i)); cbn [negb rbind].
      * apply finish_sim; cbn; auto.
        -- unfold output in *. cbn. now rewrite map_store_fresh.
        -- apply store_same.
      * apply finish_sim; cbn; auto.
        -- unfold output in *. cbn. now rewrite map_store_fresh.
        -- apply store_same.
Qed.

Lemma run_sim keeptabs data : forall st out m,
  sim st out m ->
  exists st',
    run keeptabs st data = Ok st' /\
    sim st' (fst (prun keeptabs (out, m) data))
            (snd (prun keeptabs (out, m) data)).
Proof.
  induction data as [|line data IH]; intros st out m H.
  - exists st. split; [reflexivity | exact H].
  - destruct (step_sim keeptabs line H) as [st1 [Hs H1]].
    cbn [run]. rewrite Hs. cbn [rbind]. unfold prun. cbn [fold_left].
    destruct (pstep keeptabs (out, m) line) as [out1 m1].
    apply IH. exact H1.
Qed.

End Agree.

End SimFacts.

Section Scanned.

Context {U : Chr.Unicode}.

(** The scan always succeeds, and its result is what the state machine
    computes. *)
Lemma scan_logical keeptabs data :
  exists st,
    Scan.run keeptabs Scan.init data = Ok st /\
    Scan.output st = List.map InstDict (logical keeptabs data) /\
    (Scan.in_continuation st = true ->
     ~ In (Scan.cur_inst st) (Scan.instructions st)).
Proof.
  destruct (SimFacts.run_sim keeptabs data SimFacts.sim_init) as [st [Hr Hs]].
  exists st. split; [exact Hr|]. split; [apply Hs|].
  intros Hc. destruct Hs as [_ _ _ Hm].
  destruct (snd (prun keeptabs ([], Scanning) data)).
  - congruence.
  - apply Hm.
Qed.

Lemma reconstruct_logical keeptabs data :
  reconstruct keeptabs data = Ok (List.map InstDict (logical keeptabs data)).
Proof.
  unfold reconstruct.
  destruct (scan_logical keeptabs data) as [st [Hr [Ho _]]].
  rewrite Hr. cbn. now rewrite Ho.
Qed.

End Scanned.


(** ** What the patterns say about a line *)

Lemma span_stop p s x c y : Str.span p s = (x, String c y) -> p c = false.
Proof.
  revert x. induction s as [|a s IH]; simpl; intros x H; [discriminate|].
  destruct (p a) eqn:Ea.
  - destruct (Str.span p s) as [x' y'] eqn:Es. inversion H; subst.
    eapply IH. reflexivity.
  - inversion H; subst. exact Ea.
Qed.

Section PatternFacts.

Context {U : Chr.Unicode}.

Lemma instre_spec line kw rest :
  instre_match line = Some (kw, rest) ->
  exists ws0 ws1 b,
    line = ws0 ++ kw ++ ws1 ++ rest ++ b /\
    Str.all Chr.is_space ws0 = true /\
    kw <> "" /\ Str.all Chr.is_word kw = true /\
    Str.all Chr.is_space ws1 = true /\
    Str.all Chr.is_space b = true.
Proof.
  unfold instre_match. intros H.
  destruct (lstrip_spec line) as [ws0 [Hl H0]].
  destruct (Str.span Chr.is_word (Str.lstrip line)) as [w s2] eqn:E1.
  destruct (Str.is_empty w) eqn:Ew; [discriminate|].
  destruct (Str.span Chr.is_space s2) as [ws1 r] eqn:E2.
  destruct (Str.is_empty ws1); [discriminate|].
  destruct (Str.span (fun c => negb (N.eqb c Chr.nl)) r) as [a b] eqn:E3.
  apply span_spec in E1. destruct E1 as [Es1 Hw].
  apply span_spec in E2. destruct E2 as [Es2 Hws].
  assert (Hb : Str.all Chr.is_space b = true /\ kw = w /\ rest = a).
  { destruct b as [|c [|c' b']]; inversion H; subst; [auto|].
    apply span_stop in E3. apply negb_false_iff, N.eqb_eq in E3.
    subst c. auto. }
  apply span_spec in E3. destruct E3 as [Es3 _].
  destruct Hb as [Hb [-> ->]].
  exists ws0, ws1, b. repeat split; auto.
  - rewrite Hl at 1. rewrite Es1, Es2, Es3. reflexivity.
  - intros ->. discriminate.
Qed.

Lemma instre_keyword data line kw rest :
  In line data ->
  instre_match line = Some (kw, rest) -> keyword_ok data (Str.upper kw).
Proof.
  intros Hin H. pose proof (instre_spec _ H) as Hs.
  destruct Hs as (ws0 & ws1 & b & _ & _ & Hne & Hw & _).
  split; [now apply upper_not_empty|].
  exists line, kw, rest. repeat split; auto; now apply upper_ascii_word.
Qed.

Lemma instre_within line kw rest :
  instre_match line = Some (kw, rest) -> within line rest.
Proof.
  intros H. apply instre_spec in H.
  destruct H as (ws0 & ws1 & b & Hl & _).
  exists (ws0 ++ kw ++ ws1), b. rewrite Hl, !app_assoc. reflexivity.
Qed.

Lemma within_refl line : within line line.
Proof. exists "", "". simpl. now rewrite app_nil_r. Qed.

Lemma within_lstrip line : within line (Str.lstrip line).
Proof.
  destruct (lstrip_spec line) as [ws [H _]].
  exists ws, "". now rewrite app_nil_r.
Qed.

Lemma contre_endswith line :
  contre_match line = true ->
  Str.endswith Chr.backslash (Str.rstrip line) = true.
Proof. unfold contre_match. intros H. now apply andb_prop in H. Qed.

Lemma rstrip_keeps (p q : N -> bool) s :
  (forall c, q c = true -> p c = false) ->
  Str.all q s = true -> Str.rstrip_chars p s = s.
Proof.
  intros Hpq. induction s as [|a s IH]; simpl; [reflexivity|].
  intros H. apply andb_prop in H. destruct H as [Ha Hs].
  rewrite IH, (Hpq _ Ha) by assumption. reflexivity.
Qed.

(** A continued line gives the text before its trailing backslash: as a
    whole, ... *)
Lemma cut_line line :
  contre_match line = true -> cut line (rstrip_backslash line).
Proof.
  intros H. apply contre_endswith in H.
  destruct (@rstrip_backslash_cut "" line "") as [ws [Hws Hl]]; auto.
  - intros E. rewrite E in H. discriminate.
  - simpl. now rewrite app_nil_r.
  - exists "", ws. split; [exact Hl | exact Hws].
Qed.

(** ... without its leading whitespace, ... *)
Lemma cut_lstrip line :
  contre_match line = true -> cut line (rstrip_backslash (Str.lstrip line)).
Proof.
  intros H. apply contre_endswith in H.
  destruct (lstrip_spec line) as [ws0 [Hl H0]].
  destruct (@rstrip_backslash_cut ws0 (Str.lstrip line) "") as [ws [Hws Hs]]; auto.
  - intros E. apply rstrip_empty in E.
    unfold Str.rstrip in H. rewrite Hl, rstrip_all in H; [discriminate|].
    rewrite all_app, H0, E. reflexivity.
  - rewrite app_nil_r, <- Hl. exact H.
  - exists ws0, ws. split; [|exact Hws].
    rewrite Hl at 1. rewrite Hs at 1. reflexivity.
Qed.

(** ... and as the rest of a line that starts an instruction. *)
Lemma cut_rest line kw rest :
  instre_match line = Some (kw, rest) ->
  contre_match line = true -> cut line (rstrip_backslash rest).
Proof.
  intros Hi H. apply contre_endswith in H. apply instre_spec in Hi.
  destruct Hi as (ws0 & ws1 & b & Hl & H0 & Hne & Hw & H1 & Hb).
  assert (Hl' : line = (ws0 ++ kw ++ ws1) ++ rest ++ b).
  { rewrite Hl, !app_assoc. reflexivity. }
  destruct (@rstrip_backslash_cut (ws0 ++ kw ++ ws1) rest b) as [ws [Hws Hs]]; auto.
  - intros E. apply rstrip_empty in E.
    unfold Str.rstrip in H.
    rewrite Hl, <- app_assoc, rstrip_app_all in H
      by (rewrite !all_app, H1, E, Hb; reflexivity).
    rewrite rstrip_app in H.
    + rewrite (rstrip_keeps _ Chr.is_word) in H by (first [exact Hw | intros c0 Hc0; now apply word_not_space]).
      rewrite endswith_app in H by assumption.
      rewrite (endswith_all Chr.is_word) in H
        by (first [exact Hw | intros c0 Hc0; now apply word_not_backslash]). discriminate.
    + rewrite (rstrip_keeps _ Chr.is_word) by (first [exact Hw | intros c0 Hc0; now apply word_not_space]).
      assumption.
  - rewrite <- Hl'. exact H.
  - exists (ws0 ++ kw ++ ws1), (ws ++ b). split.
    + rewrite Hl' at 1. rewrite Hs at 1. rewrite !app_assoc. reflexivity.
    + rewrite all_app, Hws, Hb. reflexivity.
Qed.

Lemma replace_removes c s : Str.contains c (Str.replace c "" s) = false.
Proof.
  induction s as [|a s IH]; simpl; [reflexivity|].
  destruct (N.eqb a c) eqn:E; simpl; [exact IH|].
  now rewrite E, IH.
Qed.

(** ** The invariant of the state machine *)

Lemma from_continued_mono data l lp :
  from_continued data lp -> from_continued (data ++ [l]) lp.
Proof.
  intros (H1 & H2 & H3). repeat split; auto. apply in_or_app. now left.
Qed.

Lemma pieces_mono data l pieces :
  Forall (from_continued data) pieces ->
  Forall (from_continued (data ++ [l])) pieces.
Proof. intros H. eapply Forall_impl; [|exact H]. apply from_continued_mono. Qed.

Lemma keyword_ok_mono data l k :
  keyword_ok data k -> keyword_ok (data ++ [l]) k.
Proof.
  intros (Hne & line & kw & rest & Hin & H).
  split; [exact Hne|]. exists line, kw, rest.
  split; [apply in_or_app; now left | exact H].
Qed.

Lemma emitted_mono keeptabs data l i :
  emitted keeptabs data i -> emitted keeptabs (data ++ [l]) i.
Proof.
  intros (Hk & Ht & pieces & l0 & s & Hp & Hin & Hc & Hw & Hv).
  split; [now apply keyword_ok_mono|]. split; [exact Ht|].
  exists pieces, l0, s. repeat split; auto using pieces_mono.
  apply in_or_app. now left.
Qed.

Lemma in_progress_mono data l i :
  in_progress data i -> in_progress (data ++ [l]) i.
Proof.
  intros (Hk & pieces & Hp & Hv). split; [now apply keyword_ok_mono|].
  exists pieces. split; auto using pieces_mono.
Qed.

Lemma cat_app xs ys : cat (xs ++ ys) = cat xs ++ cat ys.
Proof.
  induction xs as [|x xs IH]; simpl; [reflexivity|].
  now rewrite IH, app_assoc.
Qed.

Lemma untab_clean keeptabs v :
  keeptabs = false -> Str.contains Chr.tab (untab keeptabs v) = false.
Proof. intros ->. apply replace_removes. Qed.

Lemma last_in (data : list string) l : In l (data ++ [l]).
Proof. apply in_or_app. right. now left. Qed.

(** The end of the loop body keeps the invariant: [i] is in progress over
    the lines before [line], and [line] adds [piece], cut at its backslash
    if [line] is continued. *)
Lemma pfinish_inv keeptabs data line out i kw v0 piece s :
  Forall (emitted keeptabs data) out ->
  keyword_ok (data ++ [line]) kw ->
  (exists pieces, Forall (from_continued data) pieces /\
                  v0 = cat (List.map snd pieces)) ->
  i = {| instruction := kw; value := v0 ++ piece |} ->
  piece = rstrip_backslash s ->
  within line s ->
  (contre_match line = true -> cut line piece) ->
  inv keeptabs (data ++ [line]) (pfinish keeptabs line out i).
Proof.
  intros Hout Hk (pieces & Hp & Hv0) -> Hpiece Hw Hcut.
  unfold pfinish. destruct (contre_match line) eqn:Ec; split; cbn [fst snd].
  - eapply Forall_impl; [|exact Hout]. intros a. apply emitted_mono.
  - split; [exact Hk|]. cbn [instruction value].
    exists (pieces ++ [(line, piece)])%list. split.
    + apply Forall_app. split; [now apply pieces_mono|].
      constructor; [|constructor].
      repeat split; cbn [fst snd]; auto using last_in.
    + rewrite map_app, cat_app, Hv0. cbn. now rewrite app_nil_r.
  - apply Forall_app. split.
    + eapply Forall_impl; [|exact Hout]. intros a. apply emitted_mono.
    + constructor; [|constructor].
      assert (Hval : value (strip_tabs keeptabs
                       {| instruction := kw; value := v0 ++ piece |})
                     = untab keeptabs (v0 ++ piece)).
      { unfold strip_tabs, untab. destruct keeptabs; reflexivity. }
      split; [|split].
      * unfold strip_tabs. destruct keeptabs; exact Hk.
      * intros Hkt. rewrite Hval. now apply untab_clean.
      * exists pieces, line, s. rewrite Hval, Hv0, Hpiece.
        repeat split; auto using last_in, pieces_mono.
  - exact I.
Qed.

Lemma pstep_inv keeptabs data line s :
  inv keeptabs data s -> inv keeptabs (data ++ [line]) (pstep keeptabs s line).
Proof.
  intros [Hout Hm]. unfold pstep.
  assert (Hsame : inv keeptabs (data ++ [line]) s).
  { split.
    - eapply Forall_impl; [|exact Hout]. intros a. apply emitted_mono.
    - destruct (snd s); [exact I | now apply in_progress_mono]. }
  destruct (commentre_match line); [exact Hsame|].
  destruct (snd s) as [|i] eqn:Es.
  - destruct (instre_match line) as [[kw rest]|] eqn:Ei; [|exact Hsame].
    apply pfinish_inv with (kw := Str.upper kw) (v0 := "")
      (piece := rstrip_backslash rest) (s := rest); auto.
    + eapply instre_keyword; [apply last_in | eassumption].
    + exists (@nil (string * string)). split; [constructor | reflexivity].
    + eapply instre_within; eassumption.
    + intros Hc. eapply cut_rest; eassumption.
  - destruct Hm as (Hk & pieces & Hp & Hv). unfold extend.
    destruct (Str.is_empty (value i)) eqn:Ee; cbn [negb].
    + apply is_empty_true in Ee.
      apply pfinish_inv with (kw := instruction i) (v0 := "")
        (piece := rstrip_backslash (Str.lstrip line)) (s := Str.lstrip line);
        auto.
      * now apply keyword_ok_mono.
      * exists pieces. split; [exact Hp | congruence].
      * apply within_lstrip.
      * apply cut_lstrip.
    + apply pfinish_inv with (kw := instruction i) (v0 := value i)
        (piece := rstrip_backslash line) (s := line); auto.
      * now apply keyword_ok_mono.
      * exists pieces. split; [exact Hp | exact Hv].
      * apply within_refl.
      * apply cut_line.
Qed.

Lemma prun_app keeptabs s d1 d2 :
  prun keeptabs s (d1 ++ d2) = prun keeptabs (prun keeptabs s d1) d2.
Proof. apply fold_left_app. Qed.

Lemma prun_inv keeptabs data :
  inv keeptabs data (prun keeptabs ([], Scanning) data).
Proof.
  induction data as [|line data IH] using rev_ind.
  - split; [constructor | exact I].
  - rewrite prun_app. cbn [prun fold_left]. now apply pstep_inv.
Qed.

(** ** The state machine on comments, continued lines and lone lines *)

Lemma pstep_comment keeptabs s c :
  commentre_match c = true -> pstep keeptabs s c = s.
Proof. intros H. unfold pstep. now rewrite H. Qed.

Lemma pstep_continued keeptabs s line :
  contre_match line = true -> fst (pstep keeptabs s line) = fst s.
Proof.
  intros H. unfold pstep, pfinish. rewrite H.
  destruct (commentre_match line); [reflexivity|].
  destruct (snd s); [|reflexivity].
  destruct (instre_match line) as [[kw rest]|]; reflexivity.
Qed.

Lemma pstep_enters keeptabs out m line :
  contre_match line = true -> commentre_match line = false ->
  matches line = true \/ (exists i, m = Continuing i) ->
  exists i, snd (pstep keeptabs (out, m) line) = Continuing i.
Proof.
  intros Hc Hn H. unfold pstep, pfinish, matches in *. rewrite Hc, Hn.
  cbn [fst snd]. destruct m as [|i].
  - destruct (instre_match line) as [[kw rest]|].
    + eexists. reflexivity.
    + destruct H as [H | [i H]]; discriminate.
  - eexists. reflexivity.
Qed.

Lemma prun_cons keeptabs s line data :
  prun keeptabs s (line :: data) = prun keeptabs (pstep keeptabs s line) data.
Proof. reflexivity. Qed.

Lemma prun_lone keeptabs data : forall out,
  (forall l, In l data -> contre_match l = false /\ commentre_match l = false) ->
  prun keeptabs (out, Scanning) data
  = ((out ++ matching keeptabs data)%list, Scanning).
Proof.
  induction data as [|line data IH]; intros out H.
  - cbn. now rewrite List.app_nil_r.
  - destruct (H line (or_introl eq_refl)) as [Hc Hn].
    rewrite prun_cons. cbn [matching]. unfold pstep, pfinish, alone.
    rewrite Hc, Hn. cbn [fst snd].
    destruct (instre_match line) as [[kw rest]|].
    + rewrite IH by (intros; apply H; now right).
      now rewrite <- List.app_assoc.
    + apply IH. intros; apply H; now right.
Qed.

Lemma matching_length keeptabs data :
  length (matching keeptabs data) = length (filter matches data).
Proof.
  induction data as [|line data IH]; [reflexivity|].
  cbn [matching filter]. unfold alone, matches.
  destruct (instre_match line) as [[kw rest]|]; cbn; now rewrite IH.
Qed.

Lemma pstep_strip s line :
  pstep false (List.map (strip_tabs false) (fst s), snd s) line
  = (List.map (strip_tabs false) (fst (pstep true s line)),
     snd (pstep true s line)).
Proof.
  destruct s as [out m]. unfold pstep, pfinish. cbn [fst snd].
  destruct (commentre_match line); [reflexivity|].
  destruct m as [|i].
  - destruct (instre_match line) as [[kw rest]|]; [|reflexivity].
    destruct (contre_match line); cbn [fst snd]; [reflexivity|].
    now rewrite map_app.
  - destruct (contre_match line); cbn [fst snd]; [reflexivity|].
    now rewrite map_app.
Qed.

Lemma prun_strip data : forall s,
  prun false (List.map (strip_tabs false) (fst s), snd s) data
  = (List.map (strip_tabs false) (fst (prun true s data)),
     snd (prun true s data)).
Proof.
  induction data as [|line data IH]; intros s; [reflexivity|].
  rewrite !prun_cons, pstep_strip. apply IH.
Qed.

Lemma logical_strip data :
  logical false data = List.map (strip_tabs false) (logical true data).
Proof.
  unfold logical.
  change ([], Scanning) with
    (List.map (strip_tabs false) (fst (@nil inst, Scanning)),
     snd (@nil inst, Scanning)) at 1.
  now rewrite prun_strip.
Qed.

Lemma run_app keeptabs d1 d2 : forall st,
  Scan.run keeptabs st (d1 ++ d2)
  = (st1 <- Scan.run keeptabs st d1 ;; Scan.run keeptabs st1 d2).
Proof.
  induction d1 as [|l d1 IH]; intros st; [reflexivity|].
  cbn [List.app Scan.run].
  destruct (Scan.step keeptabs st l) as [st1|e]; cbn [rbind]; [apply IH | reflexivity].
Qed.

(** ** The Reconstructor *)

(** C4, as the code has it.  Every instruction that the Reconstructor
    emits has a keyword that is not empty: the upper case of the word
    characters, at least one, that the instruction pattern matched on a
    line (ASCII word characters without a small letter when those are
    ASCII); by default its value has no tab; its value is made of the
    pieces of its continued lines, each cut right before the trailing
    backslash of its line, and of the stripped text of its last line; and
    with tabs kept the output is the one from which the default output is
    got by removing the tabs. *)
Theorem C4_emitted_instructions keeptabs data :
  exists out,
    reconstruct keeptabs data = Ok (List.map InstDict out) /\
    Forall (emitted keeptabs data) out /\
    (exists kept,
        reconstruct true data = Ok (List.map InstDict kept) /\
        reconstruct false data
        = Ok (List.map InstDict (List.map (strip_tabs false) kept))) /\
    reconstruct false [tabbed]
    = Ok [InstDict {| instruction := "RUN"; value := "ab" |}] /\
    reconstruct true [tabbed]
    = Ok [InstDict {| instruction := "RUN";
                      value := "a" ++ String Chr.tab "b" |}].
Proof.
  exists (logical keeptabs data). split; [apply reconstruct_logical|].
  split; [apply (prun_inv keeptabs data)|].
  split; [|split; reflexivity].
  exists (logical true data). rewrite !reconstruct_logical.
  now rewrite logical_strip.
Qed.

(** C5.  When no line is continued and no line is a comment, the output
    has one instruction for each line that matches the instruction
    pattern, in the order of the lines. *)
Theorem C5_one_instruction_per_matching_line keeptabs data :
  (forall l, In l data -> contre_match l = false /\ commentre_match l = false) ->
  exists out,
    reconstruct keeptabs data = Ok out /\
    out = List.map InstDict (matching keeptabs data) /\
    length out = length (filter matches data).
Proof.
  intros H. exists (List.map InstDict (matching keeptabs data)).
  split; [|split; [reflexivity|]].
  - rewrite reconstruct_logical. unfold logical.
    now rewrite prun_lone by exact H.
  - rewrite length_map. apply matching_length.
Qed.

(** C6.  The two lines [FROM ubuntu\] and [:18.04] give one instruction,
    FROM with value [ubuntu:18.04], which holds neither a backslash nor a
    newline. *)
Theorem C6_continuation_joining :
  reconstruct false ["FROM ubuntu\"; ":18.04"]
  = Ok [InstDict {| instruction := "FROM"; value := "ubuntu:18.04" |}] /\
  Str.contains Chr.backslash "ubuntu:18.04" = false /\
  Str.contains Chr.nl "ubuntu:18.04" = false.
Proof. repeat split; reflexivity. Qed.

(** C8.  A comment line put anywhere in the input leaves the output as it
    is; the scanner steps over it and keeps the store, the list of
    instructions, the continuation flag and the current instruction. *)
Theorem C8_comment_lines_are_skipped keeptabs before after c :
  commentre_match c = true ->
  reconstruct keeptabs (before ++ c :: after)
  = reconstruct keeptabs (before ++ after) /\
  forall st,
    exists st',
      Scan.step keeptabs st c = Ok st' /\
      Scan.heap st' = Scan.heap st /\
      Scan.instructions st' = Scan.instructions st /\
      Scan.in_continuation st' = Scan.in_continuation st /\
      Scan.cur_inst st' = Scan.cur_inst st.
Proof.
  intros H. split.
  - rewrite !reconstruct_logical. unfold logical.
    rewrite !prun_app. cbn [prun fold_left].
    now rewrite pstep_comment by exact H.
  - intros st. exists (Scan.tick st). unfold Scan.step. rewrite H.
    repeat split; reflexivity.
Qed.

(** C9.  When the last line is continued, the scan ends without an error
    and with the output it had before that line; if that line started or
    continued an instruction, the scan ends in a continuation, and the
    instruction in progress is not in the output. *)
Theorem C9_unterminated_continuation_is_dropped keeptabs data last :
  contre_match last = true ->
  exists st out,
    Scan.run keeptabs Scan.init (data ++ [last]) = Ok st /\
    reconstruct keeptabs (data ++ [last]) = Ok out /\
    reconstruct keeptabs data = Ok out /\
    (Scan.in_continuation st = true ->
     ~ In (Scan.cur_inst st) (Scan.instructions st)) /\
    (commentre_match last = false ->
     matches last = true \/
     (exists st0, Scan.run keeptabs Scan.init data = Ok st0 /\
                  Scan.in_continuation st0 = true) ->
     Scan.in_continuation st = true).
Proof.
  intros Hc.
  destruct (SimFacts.run_sim keeptabs data SimFacts.sim_init) as [st0 [Hr0 Hs0]].
  destruct (prun keeptabs ([], Scanning) data) as [out0 m0] eqn:E0.
  cbn [fst snd] in Hs0.
  destruct (SimFacts.step_sim keeptabs last Hs0) as [st [Hst Hs]].
  assert (Hrun : Scan.run keeptabs Scan.init (data ++ [last]) = Ok st).
  { rewrite run_app, Hr0. cbn [rbind Scan.run]. now rewrite Hst. }
  exists st, (List.map InstDict (logical keeptabs data)).
  split; [exact Hrun|]. split; [|split; [apply reconstruct_logical|split]].
  - rewrite reconstruct_logical. unfold logical.
    rewrite prun_app. cbn [prun fold_left].
    now rewrite pstep_continued by exact Hc.
  - intros Hin. destruct Hs as [_ _ _ Hm].
    destruct (snd (pstep keeptabs (out0, m0) last)); [congruence | apply Hm].
  - intros Hn Hstart.
    destruct (@pstep_enters keeptabs out0 m0 last Hc Hn) as [i Hi].
    + destruct Hstart as [Hmatch | [st1 [Hr1 Hc1]]]; [now left | right].
      rewrite Hr0 in Hr1. inversion Hr1; subst st1.
      destruct Hs0 as [_ _ _ Hm0]. destruct m0 as [|i0]; [congruence|].
      now exists i0.
    + destruct Hs as [_ _ _ Hm]. rewrite Hi in Hm. apply Hm.
Qed.

End PatternFacts.

Lemma C4_counterexample :
  reconstruct (U := Chr.Sample) false [String 496 " x"]
  = Ok [InstDict {| instruction := String 74 (String 780 "");
                    value := "x" |}] /\
  Str.all (Chr.is_word (U := Chr.Sample)) (String 74 (String 780 "")) = false.
Proof. split; reflexivity. Qed.

Lemma C5_witness :
  (forall l, In l ["FROM a"; ""; "run x y"; "oops"] ->
             contre_match l = false /\ commentre_match l = false) /\
  exists out,
    reconstruct (U := Chr.Plain) false ["FROM a"; ""; "run x y"; "oops"]
    = Ok out /\
    out = List.map InstDict
            (matching (U := Chr.Plain) false
               ["FROM a"; ""; "run x y"; "oops"]) /\
    length out
    = length (filter (matches (U := Chr.Plain))
                ["FROM a"; ""; "run x y"; "oops"]).
Proof.
  assert (H : forall l, In l ["FROM a"; ""; "run x y"; "oops"] ->
                        contre_match l = false /\ commentre_match l = false).
  { intros l Hl. simpl in Hl.
    destruct Hl as [<- | [<- | [<- | [<- | []]]]]; split; reflexivity. }
  split; [exact H|].
  apply (@C5_one_instruction_per_matching_line Chr.Plain false _ H).
Defined.

Lemma C8_witness :
  commentre_match "  # base image \" = true /\
  reconstruct (U := Chr.Plain) false (["RUN a \"] ++ "  # base image \" :: ["  b"; "RUN c"])
  = reconstruct (U := Chr.Plain) false (["RUN a \"] ++ ["  b"; "RUN c"]).
Proof.
  split; [reflexivity|].
  apply (@C8_comment_lines_are_skipped Chr.Plain false ["RUN a \"] ["  b"; "RUN c"]
           "  # base image \" eq_refl).
Defined.

Lemma C9_witness :
  contre_match "  apt-get install -y curl \" = true /\
  exists st out,
    Scan.run (U := Chr.Plain) false Scan.init
      (["FROM debian"; "RUN apt-get update && \"]
       ++ ["  apt-get install -y curl \"]) = Ok st /\
    reconstruct (U := Chr.Plain) false
      (["FROM debian"; "RUN apt-get update && \"]
       ++ ["  apt-get install -y curl \"]) = Ok out /\
    reconstruct (U := Chr.Plain) false ["FROM debian"; "RUN apt-get update && \"] = Ok out /\
    (Scan.in_continuation st = true ->
     ~ In (Scan.cur_inst st) (Scan.instructions st)) /\
    (commentre_match "  apt-get install -y curl \" = false ->
     matches (U := Chr.Plain) "  apt-get install -y curl \" = true \/
     (exists st0,
         Scan.run (U := Chr.Plain) false Scan.init ["FROM debian"; "RUN apt-get update && \"]
         = Ok st0 /\
         Scan.in_continuation st0 = true) ->
     Scan.in_continuation st = true).
Proof.
  split; [reflexivity|].
  apply (@C9_unterminated_continuation_is_dropped Chr.Plain false
           ["FROM debian"; "RUN apt-get update && \"]
           "  apt-get install -y curl \" eq_refl).
Defined.

(** ** The loop of the RUN branch is one pass over the value *)

Lemma backticks_step val :
  backticks val =
  if Str.contains Chr.backtick val
  then backticks (Str.replace1 Chr.backtick subst_close
                    (Str.replace1 Chr.backtick subst_open val))
  else val.
Proof.
  rewrite backticks_equation_1.
  set (rhs := if Str.contains Chr.backtick val then _ else _).
  destruct (inspect (Str.contains Chr.backtick val)) as [[] E];
    simp backticks; subst rhs; rewrite E;
    rewrite <- ?backticks_equation_1; reflexivity.
Qed.

Lemma find_first c s :
  Str.contains c s = true ->
  exists p q, s = p ++ String c q /\ Str.contains c p = false.
Proof.
  induction s as [|a s IH]; simpl; [discriminate|].
  destruct (N.eqb a c) eqn:E; simpl.
  - intros _. apply N.eqb_eq in E. subst a.
    exists "", s. split; reflexivity.
  - intros H. destruct (IH H) as (p & q & -> & Hp).
    exists (String a p), q. simpl. rewrite E. split; [reflexivity | exact Hp].
Qed.

Lemma replace1_app c by_ p s :
  Str.contains c p = false ->
  Str.replace1 c by_ (p ++ s) = p ++ Str.replace1 c by_ s.
Proof.
  induction p as [|a p IH]; simpl; [reflexivity|].
  destruct (N.eqb a c); simpl; [discriminate|].
  intros H. now rewrite IH.
Qed.

Lemma replace1_head c by_ s : Str.replace1 c by_ (String c s) = by_ ++ s.
Proof. simpl. now rewrite N.eqb_refl. Qed.

Lemma replace1_none c by_ s :
  Str.contains c s = false -> Str.replace1 c by_ s = s.
Proof.
  induction s as [|a s IH]; simpl; [reflexivity|].
  destruct (N.eqb a c); simpl; [discriminate|].
  intros H. now rewrite IH.
Qed.

Lemma count_app c (s t : string) :
  Str.count c (s ++ t) = Str.count c s + Str.count c t.
Proof.
  induction s as [|a s IH]; simpl; [reflexivity|].
  rewrite IH. apply Nat.add_assoc.
Qed.

Lemma count_none c s : Str.contains c s = false -> Str.count c s = 0.
Proof.
  induction s as [|a s IH]; simpl; [reflexivity|].
  destruct (N.eqb a c); simpl; [discriminate|]. exact IH.
Qed.

Lemma pair_up_app inside p s :
  Str.contains Chr.backtick p = false ->
  pair_up inside (p ++ s) = p ++ pair_up inside s.
Proof.
  induction p as [|a p IH]; simpl; [reflexivity|].
  destruct (N.eqb a Chr.backtick); simpl; [discriminate|].
  intros H. now rewrite IH.
Qed.

Lemma pair_up_none inside s :
  Str.contains Chr.backtick s = false -> pair_up inside s = s.
Proof.
  intros H. rewrite <- (app_nil_r s) at 1.
  rewrite pair_up_app by exact H. apply app_nil_r.
Qed.

Lemma pair_up_head inside s :
  pair_up inside (String Chr.backtick s)
  = (if inside then subst_close else subst_open) ++ pair_up (negb inside) s.
Proof. reflexivity. Qed.

Lemma backticks_pair_up val : backticks val = pair_up false val.
Proof.
  remember (Str.count Chr.backtick val) as n eqn:En.
  revert val En. induction n as [n IH] using lt_wf_ind. intros val En.
  rewrite backticks_step.
  destruct (Str.contains Chr.backtick val) eqn:E;
    [|symmetry; now apply pair_up_none].
  destruct (find_first _ _ E) as (p & q & -> & Hp).
  rewrite replace1_app, replace1_head by exact Hp.
  rewrite <- app_assoc.
  assert (Hpo : Str.contains Chr.backtick (p ++ subst_open) = false).
  { rewrite contains_app, Hp. reflexivity. }
  rewrite replace1_app by exact Hpo.
  rewrite pair_up_app, pair_up_head by exact Hp. cbn [negb].
  rewrite count_app, (count_none _ _ Hp) in En. cbn in En.
  destruct (Str.contains Chr.backtick q) eqn:Eq.
  - destruct (find_first _ _ Eq) as (m & r & -> & Hm).
    rewrite replace1_app, replace1_head by exact Hm.
    rewrite count_app, (count_none _ _ Hm) in En. cbn in En.
    rewrite (IH (Str.count Chr.backtick r)); [| lia |].
    + rewrite pair_up_app by exact Hpo.
      rewrite pair_up_app by exact Hm.
      rewrite (pair_up_app _ subst_close) by reflexivity.
      rewrite pair_up_app, pair_up_head by exact Hm.
      cbn [negb]. now rewrite app_assoc.
    + rewrite !count_app, (count_none _ _ Hp), (count_none _ _ Hm). reflexivity.
  - rewrite replace1_none by exact Eq.
    rewrite backticks_step.
    rewrite contains_app, Hpo, Eq. cbn [orb].
    rewrite pair_up_none by exact Eq. now rewrite app_assoc.
Qed.

Lemma replace_app c by_ s t :
  Str.replace c by_ (s ++ t) = Str.replace c by_ s ++ Str.replace c by_ t.
Proof.
  induction s as [|a s IH]; simpl; [reflexivity|].
  destruct (N.eqb a c); rewrite IH; [now rewrite app_assoc | reflexivity].
Qed.

Lemma replace_keeps_absent c d by_ s :
  Str.contains d by_ = false -> Str.contains d s = false ->
  Str.contains d (Str.replace c by_ s) = false.
Proof.
  intros Hb. induction s as [|a s IH]; simpl; [reflexivity|].
  destruct (N.eqb a d) eqn:Ead; simpl; [discriminate|].
  intros H. destruct (N.eqb a c); simpl.
  - now rewrite contains_app, Hb, IH.
  - now rewrite Ead, IH.
Qed.

Lemma split_on_app c p s :
  Str.contains c p = false ->
  Str.split_on c (p ++ String c s) = p :: Str.split_on c s.
Proof.
  induction p as [|a p IH]; simpl.
  - intros _. now rewrite N.eqb_refl.
  - destruct (N.eqb a c); simpl; [discriminate|].
    intros H. now rewrite IH.
Qed.

Lemma split_on_none c s :
  Str.contains c s = false -> Str.split_on c s = [s].
Proof.
  induction s as [|a s IH]; simpl; [reflexivity|].
  destruct (N.eqb a c); simpl; [discriminate|].
  intros H. now rewrite IH.
Qed.

(** ** The Translator *)

Lemma escape_dollar_app s t :
  escape_dollar (s ++ t) = escape_dollar s ++ escape_dollar t.
Proof. apply replace_app. Qed.

Lemma escape_dollar_no_space s :
  Str.contains Chr.space s = false ->
  Str.contains Chr.space (escape_dollar s) = false.
Proof. apply replace_keeps_absent. reflexivity. Qed.

Lemma dirname_not_empty p :
  Str.contains Chr.slash p = true -> Path.dirname p <> "".
Proof.
  intros H. unfold Path.dirname.
  assert (Hh : Path.head p <> "").
  { destruct p as [|a p]; [discriminate|]. simpl in *.
    destruct (Str.contains Chr.slash p); [discriminate|].
    rewrite orb_false_r in H. rewrite H. discriminate. }
  destruct (Str.is_empty (Path.head p)) eqn:E1; cbn [negb andb]; [exact Hh|].
  destruct (Str.all (N.eqb Chr.slash) (Path.head p)) eqn:E2;
    cbn [negb]; [exact Hh|].
  intros E. apply rstrip_empty in E. congruence.
Qed.

Section Facts.

Context {U : Chr.Unicode}.

Variable bytes : Type.
Variable encode : string -> bytes.
Variable compress : bytes -> bytes.
Variable b64encode : bytes -> bytes.
Variable decode : bytes -> string.
Variable read_file : string -> res string.

Abbreviation tr := (translate encode compress b64encode decode read_file).

(** C1, as the code has it.  The RUN branch replaces the backticks, from
    left to right, alternately by the opening and by the closing text, then
    puts a backslash before every dollar sign, those it has just inserted
    included: the value [echo `date`] gives [echo "\$(date)"] and a
    newline. *)
Theorem C1_run_backticks val dfile :
  tr "RUN" val dfile = ([], Ok (escape_dollar (pair_up false val) ++ newline)) /\
  tr "RUN" "echo `date`" dfile
  = ([], Ok ("echo " ++ quoted "\$(date)" ++ newline)).
Proof.
  split; [|reflexivity].
  dispatch "RUN". cbn [ret]. now rewrite backticks_pair_up.
Qed.

(** C2, as the code has it.  The ADD branch cuts the escaped value at
    every space and uses the first two fields: a value without a space
    fails on the second field; a value [src dest] gives
    [wget -O dest src] and a newline, dollars escaped; what follows a
    second space is not used. *)
Theorem C2_add_fields src dest dfile :
  Str.contains Chr.space src = false ->
  Str.contains Chr.space dest = false ->
  tr "ADD" src dfile = ([], Raise IndexError) /\
  tr "ADD" (src ++ " " ++ dest) dfile
  = ([], Ok ("wget -O " ++ escape_dollar dest ++ " " ++ escape_dollar src
             ++ newline)) /\
  forall more,
    tr "ADD" (src ++ " " ++ dest ++ " " ++ more) dfile
    = ([], Ok ("wget -O " ++ escape_dollar dest ++ " " ++ escape_dollar src
               ++ newline)).
Proof.
  intros Hs Hd.
  pose proof (escape_dollar_no_space _ Hs) as Hs'.
  pose proof (escape_dollar_no_space _ Hd) as Hd'.
  split; [|split; [|intros more]]; dispatch "ADD".
  - now rewrite split_on_none.
  - rewrite escape_dollar_app.
    change (escape_dollar (" " ++ dest)) with (String Chr.space (escape_dollar dest)).
    rewrite split_on_app, split_on_none by assumption. reflexivity.
  - rewrite !escape_dollar_app.
    change (escape_dollar " ") with (String Chr.space "").
    cbn [append].
    rewrite split_on_app by assumption.
    rewrite split_on_app by assumption. reflexivity.
Qed.


Abbreviation asm := (assemble encode compress b64encode decode read_file).

Lemma lift_bind A (m : M A) :
  (let (log, r) := m in (([] ++ log)%list, r)) = m.
Proof. destruct m; reflexivity. Qed.

(** The COPY branch, with the file to read named by [source_path]. *)
Lemma copy_unfold val dfile :
  tr "COPY" val (Some dfile)
  = (file <~ (s0 <~ lift (index (Str.split_ws val) 0) ;;
              open_read read_file (source_path dfile s0)) ;;
     s1 <~ lift (index (Str.split_ws val) 1) ;;
     ret (Str.join newline
            ["cat << __EOFF__ | base64 -d | bunzip2 > " ++ s1;
             decode (b64encode (compress (encode file)));
             "__EOFF__"] ++ newline)).
Proof.
  dispatch "COPY". rewrite !lift_bind. unfold source_path, compress_and_b64.
  destruct (Str.contains Chr.slash dfile) eqn:E; [|reflexivity].
  destruct (Path.dirname dfile) eqn:Ed; [|reflexivity].
  now apply dirname_not_empty in E.
Qed.



(** C10, as the code has it.  For a COPY value with fewer than two fields:
    with no field, the index error is raised before any file is read; with
    one field, the file is read first, and the index error is raised after
    it if it could be read, else the exception of the read is raised. *)
Theorem C10_copy_short_value val dfile :
  length (Str.split_ws val) < 2 ->
  match Str.split_ws val with
  | [] => tr "COPY" val (Some dfile) = ([], Raise IndexError)
  | src :: _ =>
      match read_file (source_path dfile src) with
      | Ok _ =>
          tr "COPY" val (Some dfile)
          = ([Read (source_path dfile src)], Raise IndexError)
      | Raise e => tr "COPY" val (Some dfile) = ([], Raise e)
      end
  end.
Proof.
  intros Hlen. pose proof (copy_unfold val dfile) as Hc.
  destruct (Str.split_ws val) as [|src [|dest more]].
  - exact Hc.
  - cbn [index nth_error lift bind] in Hc. unfold open_read in Hc.
    destruct (read_file (source_path dfile src)); exact Hc.
  - cbn in Hlen. lia.
Qed.

End Facts.

Section CopyFacts.

Context {U : Chr.Unicode}.

Variable bytes : Type.
Variable encode : string -> bytes.
Variable compress : bytes -> bytes.
Variable b64encode : bytes -> bytes.
Variable decode : bytes -> string.
Variable file_bytes : string -> res bytes.
Variable decode_text : bytes -> res string.

Abbreviation read := (read_text file_bytes decode_text).


End CopyFacts.


Lemma C1_counterexample :
  World.translate "RUN" "echo `date`" None
  <> ([], Ok ("echo " ++ quoted "$(date)" ++ newline)).
Proof. vm_compute. discriminate. Qed.

Lemma C2_counterexample :
  length (Str.split_ws "a b c") <> 2 /\
  World.translate "ADD" "a b c" None = ([], Ok ("wget -O b a" ++ newline)) /\
  Str.split_ws "a  b" = ["a"; "b"] /\
  World.translate "ADD" "a  b" None <> ([], Ok ("wget -O b a" ++ newline)).
Proof.
  repeat split; try reflexivity; vm_compute; discriminate.
Qed.

Lemma C2_witness :
  Str.contains Chr.space "http://host/pkg.tgz" = false /\
  Str.contains Chr.space "/tmp/$name" = false /\
  World.translate "ADD" ("http://host/pkg.tgz" ++ " " ++ "/tmp/$name") None
  = ([], Ok ("wget -O /tmp/\$name http://host/pkg.tgz" ++ newline)).
Proof.
  split; [reflexivity|]. split; [reflexivity|].
  apply (@C2_add_fields Chr.Plain string World.encode World.compress World.b64encode
           World.decode World.read_file
           "http://host/pkg.tgz" "/tmp/$name" None eq_refl eq_refl).
Defined.



Lemma C10_counterexample :
  length (Str.split_ws "missing.txt") < 2 /\
  World.translate "COPY" "missing.txt" (Some "Dockerfile")
  = ([], Raise (OSError "missing.txt")) /\
  snd (World.translate "COPY" "missing.txt" (Some "Dockerfile"))
  <> Raise IndexError.
Proof.
  split; [vm_compute; lia|]. split; [reflexivity|]. vm_compute. discriminate.
Qed.

Lemma C10_witness :
  length (Str.split_ws "ctx/app.conf") < 2 /\
  World.translate "COPY" "ctx/app.conf" (Some "Dockerfile")
  = ([Read "ctx/app.conf"], Raise IndexError).
Proof.
  split; [vm_compute; lia|].
  exact (@C10_copy_short_value Chr.Plain string World.encode World.compress
           World.b64encode World.decode World.read_file
           "ctx/app.conf" "Dockerfile" (le_n 2)).
Defined.


(** ** More on the Reconstructor *)

Section MoreReconstructor.

Context {U : Chr.Unicode}.

Lemma pending_mode keeptabs data :
  pending keeptabs data
  = match snd (prun keeptabs ([], Scanning) data) with
    | Scanning => None
    | Continuing i => Some i
    end.
Proof.
  unfold pending.
  destruct (SimFacts.run_sim keeptabs data SimFacts.sim_init) as [st [Hr Hs]].
  rewrite Hr. destruct Hs as [_ _ _ Hm].
  destruct (snd (prun keeptabs ([], Scanning) data)) as [|i].
  - now rewrite Hm.
  - destruct Hm as [Hc [Hi _]]. now rewrite Hc, Hi.
Qed.

Lemma rsb_prefix line :
  exists ws,
    Str.all Chr.is_space ws = true /\
    (line = rstrip_backslash line ++ ws \/
     line = rstrip_backslash line ++ String Chr.backslash ws).
Proof.
  unfold rstrip_backslash, Str.rstrip.
  destruct (rstrip_spec Chr.is_space line) as [ws [Hl Hws]].
  exists ws. split; [exact Hws|].
  destruct (Str.endswith Chr.backslash (Str.rstrip_chars Chr.is_space line)) eqn:E.
  - right. apply endswith_chop in E. rewrite Hl at 1. rewrite E at 1.
    now rewrite app_assoc.
  - left. exact Hl.
Qed.

Lemma endswith_last c s :
  Str.endswith c s
  = match Str.last s with Some a => N.eqb a c | None => false end.
Proof.
  induction s as [|a s IH]; [reflexivity|].
  destruct s as [|b s]; [reflexivity|]. exact IH.
Qed.

Lemma rstrip_last p s :
  match Str.last (Str.rstrip_chars p s) with
  | Some a => p a = false
  | None => True
  end.
Proof.
  induction s as [|a s IH]; [exact I|].
  cbn [Str.rstrip_chars].
  destruct (Str.rstrip_chars p s) as [|b r] eqn:E.
  - destruct (p a) eqn:Ea; cbn; [exact I | exact Ea].
  - rewrite andb_false_r. exact IH.
Qed.

(** X1.  [rstrip_backslash] removes the trailing whitespace and then one
    backslash, if there is one: its argument is the result, a backslash
    and whitespace; or it is the result and whitespace, and the result
    ends neither in whitespace nor in a backslash. *)
Theorem rstrip_backslash_prefix line :
  exists ws,
    Str.all Chr.is_space ws = true /\
    (line = rstrip_backslash line ++ String Chr.backslash ws \/
     line = rstrip_backslash line ++ ws /\
     match Str.last (rstrip_backslash line) with
     | Some c => Chr.is_space c = false /\ c <> Chr.backslash
     | None => True
     end).
Proof.
  unfold rstrip_backslash, Str.rstrip.
  destruct (rstrip_spec Chr.is_space line) as [ws [Hl Hws]].
  exists ws. split; [exact Hws|].
  pose proof (rstrip_last Chr.is_space line) as Hlast.
  destruct (Str.endswith Chr.backslash (Str.rstrip_chars Chr.is_space line))
    eqn:E.
  - left. apply endswith_chop in E. rewrite Hl at 1. rewrite E at 1.
    now rewrite app_assoc.
  - right. split; [exact Hl|].
    rewrite endswith_last in E.
    destruct (Str.last (Str.rstrip_chars Chr.is_space line)); [|exact I].
    split; [exact Hlast | now apply N.eqb_neq].
Qed.

Lemma pstep_extends keeptabs s line :
  exists more, fst (pstep keeptabs s line) = (fst s ++ more)%list.
Proof.
  unfold pstep, pfinish.
  destruct (commentre_match line); [exists []; now rewrite List.app_nil_r|].
  destruct (snd s).
  - destruct (instre_match line) as [[kw rest]|];
      [|exists []; now rewrite List.app_nil_r].
    destruct (contre_match line); cbn [fst];
      [exists []; now rewrite List.app_nil_r | eexists; reflexivity].
  - destruct (contre_match line); cbn [fst];
      [exists []; now rewrite List.app_nil_r | eexists; reflexivity].
Qed.

Lemma prun_extends keeptabs data : forall s,
  exists more, fst (prun keeptabs s data) = (fst s ++ more)%list.
Proof.
  induction data as [|line data IH]; intros s.
  - exists []. cbn. now rewrite List.app_nil_r.
  - rewrite prun_cons.
    destruct (IH (pstep keeptabs s line)) as [m2 H2].
    destruct (pstep_extends keeptabs s line) as [m1 H1].
    exists (m1 ++ m2)%list. now rewrite H2, H1, List.app_assoc.
Qed.

(** X2.  An instruction that was appended stays as it is: the output for
    the lines [d1 ++ d2] starts with the output for [d1]. *)
Theorem reconstruct_prefix_stable keeptabs d1 d2 :
  exists out more,
    reconstruct keeptabs d1 = Ok out /\
    reconstruct keeptabs (d1 ++ d2) = Ok (out ++ more)%list.
Proof.
  destruct (prun_extends keeptabs d2 (prun keeptabs ([], Scanning) d1))
    as [more H].
  exists (List.map InstDict (logical keeptabs d1)), (List.map InstDict more).
  split; [apply reconstruct_logical|].
  rewrite reconstruct_logical. unfold logical.
  now rewrite prun_app, H, map_app.
Qed.

Lemma pstep_length keeptabs s line :
  length (fst (pstep keeptabs s line))
  <= length (fst s) + (if closing line then 1 else 0).
Proof.
  unfold pstep, pfinish, closing.
  destruct (commentre_match line); cbn [negb andb]; [lia|].
  destruct (snd s).
  - destruct (instre_match line) as [[kw rest]|];
      destruct (contre_match line); cbn [fst negb]; rewrite ?length_app;
      cbn [length]; lia.
  - destruct (contre_match line); cbn [fst negb]; rewrite ?length_app;
      cbn [length]; lia.
Qed.

Lemma prun_length keeptabs data : forall s,
  length (fst (prun keeptabs s data))
  <= length (fst s) + length (filter closing data).
Proof.
  induction data as [|line data IH]; intros s; [cbn; lia|].
  rewrite prun_cons. specialize (IH (pstep keeptabs s line)).
  pose proof (pstep_length keeptabs s line) as H1.
  cbn [filter]. destruct (closing line); cbn [length]; lia.
Qed.

(** X3.  The scanner emits at most one instruction for each line that is
    neither a comment nor continued. *)
Theorem reconstruct_length_bound keeptabs data :
  exists out,
    reconstruct keeptabs data = Ok out /\
    length out <= length (filter closing data).
Proof.
  exists (List.map InstDict (logical keeptabs data)).
  split; [apply reconstruct_logical|].
  rewrite length_map. apply (prun_length keeptabs data ([], Scanning)).
Qed.

Lemma contains_cat c ps :
  Forall (fun p => Str.contains c p = false) ps ->
  Str.contains c (cat ps) = false.
Proof.
  induction 1 as [|p ps Hp _ IH]; [reflexivity|].
  cbn [cat]. now rewrite contains_app, Hp, IH.
Qed.

Lemma contains_within c line s :
  within line s -> Str.contains c line = false -> Str.contains c s = false.
Proof.
  intros (pre & post & ->). rewrite !contains_app.
  intros H. apply orb_false_elim in H. destruct H as [_ H].
  apply orb_false_elim in H. apply H.
Qed.

Lemma contains_cut c line piece :
  cut line piece -> Str.contains c line = false ->
  Str.contains c piece = false.
Proof.
  intros (pre & ws & -> & _). apply contains_within.
  exists pre, (String Chr.backslash ws). reflexivity.
Qed.

Lemma contains_rsb c s :
  Str.contains c s = false -> Str.contains c (rstrip_backslash s) = false.
Proof.
  destruct (rsb_prefix s) as [ws [_ [H | H]]]; rewrite H at 1;
    rewrite contains_app; intros E; apply orb_false_elim in E; apply E.
Qed.

Lemma contains_untab c keeptabs v :
  Str.contains c v = false -> Str.contains c (untab keeptabs v) = false.
Proof.
  unfold untab. destruct keeptabs; [auto|].
  apply replace_keeps_absent. reflexivity.
Qed.

Lemma emitted_no_foreign_char c keeptabs data i :
  (forall l, In l data -> Str.contains c l = false) ->
  emitted keeptabs data i -> Str.contains c (value i) = false.
Proof.
  intros Hd (_ & _ & pieces & l & s & Hp & Hl & _ & Hw & ->).
  apply contains_untab. rewrite contains_app.
  rewrite contains_cat.
  - cbn [orb]. apply contains_rsb. eapply contains_within; eauto.
  - apply Forall_map. eapply Forall_impl; [|exact Hp].
    intros [line piece] (Hin & _ & Hc). cbn [fst snd] in *.
    eapply contains_cut; eauto.
Qed.

Lemma logical_no_foreign_char c keeptabs data i :
  (forall l, In l data -> Str.contains c l = false) ->
  In i (logical keeptabs data) -> Str.contains c (value i) = false.
Proof.
  intros Hd Hi. destruct (prun_inv keeptabs data) as [Hout _].
  rewrite Forall_forall in Hout.
  eapply emitted_no_foreign_char; [exact Hd | apply Hout, Hi].
Qed.

(** X4.  A value is made of text of the lines only: a character that no
    line holds is in no value of the output. *)
Theorem reconstruct_no_foreign_char c keeptabs data :
  (forall l, In l data -> Str.contains c l = false) ->
  exists out,
    reconstruct keeptabs data = Ok (List.map InstDict out) /\
    forall i, In i out -> Str.contains c (value i) = false.
Proof.
  intros Hd. exists (logical keeptabs data).
  split; [apply reconstruct_logical|].
  intros i. now apply logical_no_foreign_char.
Qed.

Lemma replace_absent c by_ s :
  Str.contains c s = false -> Str.replace c by_ s = s.
Proof.
  induction s as [|a s IH]; simpl; [reflexivity|].
  destruct (N.eqb a c); simpl; [discriminate|].
  intros H. now rewrite IH.
Qed.

(** X5.  When no line holds a tab, [--keeptabs] changes nothing. *)
Theorem keeptabs_irrelevant_without_tabs data :
  (forall l, In l data -> Str.contains Chr.tab l = false) ->
  reconstruct true data = reconstruct false data.
Proof.
  intros Hd. rewrite !reconstruct_logical, logical_strip. f_equal. f_equal.
  symmetry. rewrite <- (map_id (logical true data)) at 2.
  apply map_ext_in. intros i Hi.
  unfold strip_tabs, with_value.
  rewrite replace_absent by (eapply logical_no_foreign_char; eauto).
  now destruct i.
Qed.

(** X6.  In a continuation, a line that is neither a comment nor continued
    ends the instruction, whatever it holds (a blank line too): the output
    gains the instruction in progress, extended by that line. *)
Theorem line_ends_continuation keeptabs data i0 line :
  pending keeptabs data = Some i0 ->
  commentre_match line = false ->
  contre_match line = false ->
  exists out,
    reconstruct keeptabs data = Ok out /\
    reconstruct keeptabs (data ++ [line])
    = Ok (out ++ [InstDict (strip_tabs keeptabs (extend i0 line))])%list.
Proof.
  intros Hp Hn Hc. rewrite pending_mode in Hp.
  exists (List.map InstDict (logical keeptabs data)).
  split; [apply reconstruct_logical|].
  rewrite reconstruct_logical. unfold logical.
  rewrite prun_app. cbn [prun fold_left].
  unfold pstep, pfinish. rewrite Hn, Hc.
  destruct (snd (prun keeptabs ([], Scanning) data)); [discriminate|].
  inversion Hp; subst. cbn [fst]. now rewrite map_app.
Qed.

(** X7.  Between instructions, a line that does not match the instruction
    pattern is skipped: the output is the same without it. *)
Theorem unmatched_line_is_skipped keeptabs before line after :
  pending keeptabs before = None ->
  instre_match line = None ->
  reconstruct keeptabs (before ++ line :: after)
  = reconstruct keeptabs (before ++ after).
Proof.
  intros Hp Hi. rewrite pending_mode in Hp.
  rewrite !reconstruct_logical. unfold logical.
  rewrite !prun_app, prun_cons. f_equal. f_equal. f_equal. f_equal.
  unfold pstep. rewrite Hi.
  destruct (snd (prun keeptabs ([], Scanning) before)); [|discriminate].
  now destruct (commentre_match line).
Qed.

End MoreReconstructor.

Lemma reconstruct_no_foreign_char_witness :
  (forall l, In l ["RUN a \"; "  b"] -> Str.contains 122 l = false) /\
  exists out,
    reconstruct (U := Chr.Plain) false ["RUN a \"; "  b"] = Ok (List.map InstDict out) /\
    forall i, In i out -> Str.contains 122 (value i) = false.
Proof.
  assert (H : forall l, In l ["RUN a \"; "  b"] -> Str.contains 122 l = false).
  { intros l [<- | [<- | []]]; reflexivity. }
  split; [exact H|].
  apply (@reconstruct_no_foreign_char Chr.Plain 122%N false _ H).
Defined.

Lemma keeptabs_irrelevant_without_tabs_witness :
  (forall l, In l ["RUN a \"; "  b"] -> Str.contains Chr.tab l = false) /\
  reconstruct (U := Chr.Plain) true ["RUN a \"; "  b"] = reconstruct (U := Chr.Plain) false ["RUN a \"; "  b"].
Proof.
  assert (H : forall l, In l ["RUN a \"; "  b"] ->
                        Str.contains Chr.tab l = false).
  { intros l [<- | [<- | []]]; reflexivity. }
  split; [exact H|].
  apply (@keeptabs_irrelevant_without_tabs Chr.Plain _ H).
Defined.

Lemma line_ends_continuation_witness :
  pending (U := Chr.Plain) false ["RUN make \"]
  = Some {| instruction := "RUN"; value := "make " |} /\
  commentre_match "" = false /\ contre_match "" = false /\
  exists out,
    reconstruct (U := Chr.Plain) false ["RUN make \"] = Ok out /\
    reconstruct (U := Chr.Plain) false (["RUN make \"] ++ [""])
    = Ok (out ++ [InstDict {| instruction := "RUN"; value := "make " |}])%list.
Proof.
  repeat (split; [reflexivity|]).
  apply (@line_ends_continuation Chr.Plain false ["RUN make \"]
           {| instruction := "RUN"; value := "make " |} ""
           eq_refl eq_refl eq_refl).
Defined.

Lemma unmatched_line_is_skipped_witness :
  pending (U := Chr.Plain) false ["FROM a"] = None /\
  instre_match (U := Chr.Plain) "  \" = None /\
  reconstruct (U := Chr.Plain) false (["FROM a"] ++ "  \" :: ["b"; "RUN c"])
  = reconstruct (U := Chr.Plain) false (["FROM a"] ++ ["b"; "RUN c"]).
Proof.
  repeat (split; [reflexivity|]).
  apply (@unmatched_line_is_skipped Chr.Plain false ["FROM a"] "  \" ["b"; "RUN c"]
           eq_refl eq_refl).
Defined.

(** ** More on the Translator *)

Lemma pair_up_no_backtick s : forall inside,
  Str.contains Chr.backtick (pair_up inside s) = false.
Proof.
  induction s as [|a s IH]; intros inside; simpl; [reflexivity|].
  destruct (N.eqb a Chr.backtick) eqn:E.
  - rewrite contains_app, IH. now destruct inside.
  - simpl. now rewrite E, IH.
Qed.

Lemma replace_keeps_present c d by_ s :
  N.eqb d c = false -> Str.contains d s = true ->
  Str.contains d (Str.replace c by_ s) = true.
Proof.
  intros Hdc. induction s as [|a s IH]; simpl; [discriminate|].
  destruct (N.eqb a d) eqn:Ead; simpl.
  - intros _. apply N.eqb_eq in Ead. subst a. rewrite Hdc. simpl.
    now rewrite N.eqb_refl.
  - intros H. destruct (N.eqb a c); simpl.
    + rewrite contains_app, IH by exact H. apply orb_true_r.
    + now rewrite Ead, IH.
Qed.

Lemma split_on_first c s :
  exists f fs tail,
    Str.split_on c s = f :: fs /\
    Str.contains c f = false /\
    s = f ++ tail /\
    (tail = "" /\ fs = [] \/
     exists r, tail = String c r /\ fs = Str.split_on c r).
Proof.
  induction s as [|a s IH]; simpl.
  - exists "", [], "". repeat split; auto.
  - destruct (N.eqb a c) eqn:E.
    + apply N.eqb_eq in E. subst a.
      exists "", (Str.split_on c s), (String c s). repeat split; auto.
      right. now exists s.
    + destruct IH as (f & fs & tail & -> & Hf & Hs & Ht).
      exists (String a f), fs, tail. repeat split; auto.
      * simpl. now rewrite E.
      * simpl. now rewrite <- Hs.
Qed.

Lemma guarded_mono b s :
  guarded_from false s = true -> guarded_from b s = true.
Proof.
  destruct s as [|a s]; [reflexivity|]. simpl.
  destruct (N.eqb a Chr.dollar); [discriminate | auto].
Qed.

Lemma guarded_app b s t :
  guarded_from b s = true -> guarded_from false t = true ->
  guarded_from b (s ++ t) = true.
Proof.
  revert b. induction s as [|a s IH]; intros b Hs Ht.
  - now apply guarded_mono.
  - simpl in *. apply andb_prop in Hs. destruct Hs as [Ha Hs].
    now rewrite Ha, IH.
Qed.

Lemma guarded_escape s : forall b, guarded_from b (escape_dollar s) = true.
Proof.
  unfold escape_dollar.
  induction s as [|a s IH]; intros b; simpl; [reflexivity|].
  destruct (N.eqb a Chr.dollar) eqn:E.
  - cbn. apply IH.
  - simpl. rewrite E. apply IH.
Qed.

Lemma guarded_fields s : forall b,
  guarded_from b s = true ->
  match Str.split_on Chr.space s with
  | [] => True
  | f :: fs =>
      guarded_from b f = true /\
      Forall (fun f => guarded_from false f = true) fs
  end.
Proof.
  induction s as [|a s IH]; intros b H.
  - cbn. split; [reflexivity | constructor].
  - cbn [guarded_from] in H. apply andb_prop in H. destruct H as [Ha Hs].
    cbn [Str.split_on].
    destruct (N.eqb a Chr.space) eqn:E.
    + apply N.eqb_eq in E. subst a. split; [reflexivity|].
      specialize (IH _ Hs). cbn in IH.
      destruct (Str.split_on Chr.space s) as [|f fs]; [constructor|].
      destruct IH as [Hf Hfs]. now constructor.
    + specialize (IH _ Hs).
      destruct (Str.split_on Chr.space s) as [|f fs].
      * split; [|constructor]. cbn [guarded_from]. now rewrite Ha.
      * destruct IH as [Hf Hfs]. split; [|exact Hfs].
        cbn [guarded_from]. now rewrite Ha, Hf.
Qed.

Section MoreFacts.

Context {U : Chr.Unicode}.

Variable bytes : Type.
Variable encode : string -> bytes.
Variable compress : bytes -> bytes.
Variable b64encode : bytes -> bytes.
Variable decode : bytes -> string.
Variable read_file : string -> res string.

Abbreviation tr := (translate encode compress b64encode decode read_file).
Abbreviation asm := (assemble encode compress b64encode decode read_file).
Abbreviation parse :=
  (parse_instruction encode compress b64encode decode read_file).

Ltac open_branches :=
  unfold translate, parse_instruction;
  cbn [lift get_instruction get_value bind instruction value];
  rewrite ?lift_bind.

Ltac chain :=
  repeat match goal with
         | |- context [named ?a ?b] => destruct (named a b) eqn:?
         end.

Lemma translate_upper ins val dfile :
  tr ins val dfile = tr (Str.upper ins) val dfile.
Proof. open_branches. now rewrite upper_idempotent. Qed.

(** X8.  The translator looks at the keyword in upper case only: a
    dictionary whose keyword is in another case is translated as the one
    with the upper-case keyword. *)
Theorem keyword_case_insensitive ins val dfile :
  tr ins val dfile = tr (Str.upper ins) val dfile.
Proof. apply translate_upper. Qed.

(** X9.  Only ADD and COPY can fail: for any other keyword the translator
    returns a fragment, and reads no file. *)
Theorem only_add_and_copy_fail ins val dfile :
  Str.upper ins <> "ADD" -> Str.upper ins <> "COPY" ->
  exists frag, tr ins val dfile = ([], Ok frag).
Proof.
  intros Hadd Hcopy. open_branches. chain;
    try (eexists; reflexivity).
  - exfalso. apply Hadd. now apply string_eqb_eq.
  - exfalso. apply Hcopy. now apply string_eqb_eq.
  - destruct (existsb _ cmds); eexists; reflexivity.
Qed.

Lemma unknown_is_empty ins val dfile :
  existsb (String.eqb (Str.upper ins)) cmds = false ->
  tr ins val dfile = ([], Ok "").
Proof.
  intros H. open_branches. rewrite H.
  unfold cmds in H. cbn [existsb] in H.
  repeat (apply orb_false_elim in H; destruct H as [? H]).
  unfold named.
  repeat match goal with
         | E : String.eqb _ _ = false |- _ => rewrite ?E; clear E
         end.
  reflexivity.
Qed.

Lemma bind_assoc A B C (m : M A) (f : A -> M B) (g : B -> M C) :
  bind (bind m f) g = bind m (fun a => bind (f a) g).
Proof.
  destruct m as [l [a|e]]; cbn [bind]; [|reflexivity].
  destruct (f a) as [l1 [b|e1]]; cbn [bind]; [|reflexivity].
  destruct (g b) as [l2 r2]. now rewrite List.app_assoc.
Qed.

Lemma assemble_app dfile pre post : forall script,
  asm dfile script (pre ++ post)
  = bind (asm dfile script pre) (fun s => asm dfile s post).
Proof.
  induction pre as [|i pre IH]; intros script.
  - cbn [List.app assemble ret bind]. now rewrite lift_bind.
  - cbn [List.app assemble].
    destruct (parse i (Some dfile)) as [l [frag|e]]; cbn [bind]; [|reflexivity].
    rewrite IH.
    destruct (asm dfile (script ++ frag) pre) as [l1 [s1|e1]]; cbn [bind];
      [|reflexivity].
    destruct (asm dfile s1 post) as [l2 r2]. now rewrite List.app_assoc.
Qed.

(** X10.  A dictionary whose keyword is not a Dockerfile instruction
    leaves no trace in the script: the assembly gives the same result
    without it. *)
Theorem unknown_keyword_is_dropped ins val dfile script pre post :
  existsb (String.eqb (Str.upper ins)) cmds = false ->
  asm dfile script
    (pre ++ InstDict {| instruction := ins; value := val |} :: post)
  = asm dfile script (pre ++ post).
Proof.
  intros H. rewrite !assemble_app.
  destruct (asm dfile script pre) as [l [s1|e]]; cbn [bind]; [|reflexivity].
  cbn [assemble].
  change (parse (InstDict {| instruction := ins; value := val |}) (Some dfile))
    with (tr ins val (Some dfile)).
  rewrite unknown_is_empty by exact H. cbn [bind].
  now rewrite app_nil_r, lift_bind.
Qed.

Lemma assemble_ok dfile instrs : forall outs script,
  Forall2 (fun i o => parse i (Some dfile) = (fst o, Ok (snd o))) instrs outs ->
  asm dfile script instrs
  = (List.concat (List.map fst outs), Ok (script ++ cat (List.map snd outs))).
Proof.
  induction instrs as [|i instrs IH]; intros outs script H; inversion H; subst.
  - cbn. now rewrite app_nil_r.
  - cbn [assemble List.map List.concat cat].
    match goal with E : parse i _ = _ |- _ => rewrite E end.
    cbn [bind]. erewrite IH by eassumption. now rewrite app_assoc.
Qed.

(** X11.  When every instruction translates, the script is the text it
    started as followed by the fragments in the order of the
    instructions, and the files are read in that order. *)
Theorem script_is_fragments_in_order dfile instrs outs script :
  Forall2 (fun i o => parse i (Some dfile) = (fst o, Ok (snd o))) instrs outs ->
  asm dfile script instrs
  = (List.concat (List.map fst outs), Ok (script ++ cat (List.map snd outs))).
Proof. apply assemble_ok. Qed.

(** X12.  The first instruction whose translation raises ends the
    assembly: the result is its exception, after the reads of the
    instructions before it and its own; what comes after it is not
    looked at. *)
Theorem first_failure_aborts_script dfile pre outs i log e rest script :
  Forall2 (fun i o => parse i (Some dfile) = (fst o, Ok (snd o))) pre outs ->
  parse i (Some dfile) = (log, Raise e) ->
  assemble encode compress b64encode decode read_file dfile script
    (pre ++ i :: rest)
  = ((List.concat (List.map fst outs) ++ log)%list, Raise e).
Proof.
  intros Hpre Hi.
  rewrite assemble_app, (@assemble_ok dfile pre outs script Hpre).
  cbn [bind assemble].
  rewrite Hi. reflexivity.
Qed.

Lemma assemble_extends dfile instrs : forall script log s,
  asm dfile script instrs = (log, Ok s) -> exists body, s = script ++ body.
Proof.
  induction instrs as [|i instrs IH]; intros script log s H.
  - cbn in H. inversion H; subst. exists "". now rewrite app_nil_r.
  - cbn [assemble] in H.
    destruct (parse i (Some dfile)) as [l [frag|e]]; cbn [bind] in H;
      [|discriminate].
    destruct (asm dfile (script ++ frag) instrs) as [l1 r1] eqn:E.
    inversion H; subst.
    destruct (IH _ _ _ E) as [body ->].
    exists (frag ++ body). now rewrite app_assoc.
Qed.

(** X13.  A script that is produced starts with the line [#!/bin/sh]. *)
Theorem script_starts_with_shebang keeptabs dfile data log s :
  shell_script encode compress b64encode decode read_file keeptabs dfile data
  = (log, Ok s) ->
  exists body, s = "#!/bin/sh" ++ newline ++ body.
Proof.
  unfold shell_script. rewrite reconstruct_logical. cbn [lift bind].
  rewrite lift_bind. intros H.
  destruct (assemble_extends _ _ _ H) as [body ->].
  exists body. now rewrite app_assoc.
Qed.

(** X14.  ADD does not fail on a value that has a space: the source is the
    escaped text before the first space, the destination the escaped text
    between the first space and the second (or the end). *)
Theorem add_succeeds_with_space val dfile :
  Str.contains Chr.space val = true ->
  exists src dest tail,
    tr "ADD" val dfile
    = ([], Ok ("wget -O " ++ dest ++ " " ++ src ++ newline)) /\
    escape_dollar val = src ++ " " ++ dest ++ tail /\
    Str.contains Chr.space src = false /\
    Str.contains Chr.space dest = false /\
    (tail = "" \/ Str.startswith Chr.space tail = true).
Proof.
  intros H.
  assert (He : Str.contains Chr.space (escape_dollar val) = true).
  { apply replace_keeps_present; [reflexivity | exact H]. }
  destruct (split_on_first Chr.space (escape_dollar val))
    as (src & fs & tail & Hsp & Hsrc & Hval & Ht).
  destruct Ht as [[-> ->] | (r & -> & ->)].
  - rewrite app_nil_r in Hval. congruence.
  - destruct (split_on_first Chr.space r)
      as (dest & fs' & tail' & Hsp' & Hdest & Hr & Ht').
    exists src, dest, tail'. repeat split; auto.
    + dispatch "ADD". rewrite Hsp, Hsp'. reflexivity.
    + rewrite Hval, Hr. reflexivity.
    + destruct Ht' as [[-> _] | (r' & -> & _)]; [now left | right].
      reflexivity.
Qed.

(** X15.  After the loop of the RUN branch no backtick is left: the
    fragment of a RUN instruction has none. *)
Theorem run_leaves_no_backtick val dfile :
  exists frag,
    tr "RUN" val dfile = ([], Ok frag) /\
    Str.contains Chr.backtick frag = false.
Proof.
  eexists. split.
  - dispatch "RUN". reflexivity.
  - rewrite backticks_pair_up, contains_app.
    unfold escape_dollar.
    rewrite replace_keeps_absent;
      [reflexivity | reflexivity | apply pair_up_no_backtick].
Qed.

(** X16.  In a fragment of ADD, ENV or RUN every dollar sign comes right
    after a backslash. *)
Theorem dollars_are_escaped ins val dfile log frag :
  In ins ["ADD"; "ENV"; "RUN"] ->
  tr ins val dfile = (log, Ok frag) ->
  guarded frag = true.
Proof.
  unfold guarded.
  intros [<- | [<- | [<- | []]]].
  - dispatch "ADD".
    pose proof (guarded_fields _ _ (guarded_escape val false)) as Hf.
    destruct (Str.split_on Chr.space (escape_dollar val)) as [|a0 [|a1 fs]];
      cbn [index nth_error]; try discriminate.
    destruct Hf as [H0 Hfs]. inversion Hfs; subst.
    intros H. inversion H; subst.
    change ("wget -O " ++ a1 ++ " " ++ a0 ++ newline)
      with ("wget -O " ++ (a1 ++ String Chr.space (a0 ++ newline))).
    cbn. apply guarded_app; [assumption|].
    cbn. apply guarded_app; [assumption | reflexivity].
  - dispatch "ENV". intros H. inversion H; subst.
    cbn. apply guarded_app; [apply guarded_escape | reflexivity].
  - dispatch "RUN". intros H. inversion H; subst.
    apply guarded_app; [apply guarded_escape | reflexivity].
Qed.

(** X17.  Only COPY reads a file, and one at most: the one that the first
    field of its value names. *)
Theorem only_copy_reads ins val dfile :
  fst (tr ins val dfile) = [] \/
  Str.upper ins = "COPY" /\
  exists d src rest,
    dfile = Some d /\
    Str.split_ws val = src :: rest /\
    fst (tr ins val dfile) = [Read (source_path d src)].
Proof.
  destruct (String.eqb (Str.upper ins) "COPY") eqn:E.
  - apply string_eqb_eq in E. rewrite translate_upper, E.
    destruct dfile as [d|]; [|left; reflexivity].
    rewrite copy_unfold.
    destruct (Str.split_ws val) as [|src rest] eqn:Es; [left; reflexivity|].
    cbn [index nth_error lift bind]. unfold open_read.
    destruct (read_file (source_path d src)) eqn:Er; [|left; reflexivity].
    right. split; [reflexivity|]. exists d, src, rest.
    repeat split. destruct rest; reflexivity.
  - left. open_branches. unfold named at 6. rewrite E. chain; try reflexivity.
    + destruct (Str.split_on Chr.space (escape_dollar val)) as [|a0 [|a1 fs]];
        reflexivity.
    + destruct (existsb _ cmds); reflexivity.
Qed.

End MoreFacts.

Lemma add_succeeds_with_space_witness :
  Str.contains Chr.space "a  b" = true /\
  exists src dest tail,
    World.translate "ADD" "a  b" None
    = ([], Ok ("wget -O " ++ dest ++ " " ++ src ++ newline)) /\
    escape_dollar "a  b" = src ++ " " ++ dest ++ tail /\
    Str.contains Chr.space src = false /\
    Str.contains Chr.space dest = false /\
    (tail = "" \/ Str.startswith Chr.space tail = true).
Proof.
  split; [reflexivity|].
  apply (@add_succeeds_with_space Chr.Plain string World.encode World.compress
           World.b64encode World.decode World.read_file "a  b" None eq_refl).
Defined.

Lemma only_add_and_copy_fail_witness :
  Str.upper (U := Chr.Plain) "workdir" <> "ADD" /\ Str.upper (U := Chr.Plain) "workdir" <> "COPY" /\
  exists frag, World.translate "workdir" "/srv/$APP" None = ([], Ok frag).
Proof.
  assert (H1 : Str.upper (U := Chr.Plain) "workdir" <> "ADD") by (vm_compute; discriminate).
  assert (H2 : Str.upper (U := Chr.Plain) "workdir" <> "COPY") by (vm_compute; discriminate).
  split; [exact H1|]. split; [exact H2|].
  apply (@only_add_and_copy_fail Chr.Plain string World.encode World.compress
           World.b64encode World.decode World.read_file
           "workdir" "/srv/$APP" None H1 H2).
Defined.

Lemma unknown_keyword_is_dropped_witness :
  existsb (String.eqb (Str.upper (U := Chr.Plain) "include")) cmds = false /\
  assemble (U := Chr.Plain) World.encode World.compress World.b64encode World.decode
    World.read_file "Dockerfile" "#!/bin/sh"
    ([InstDict {| instruction := "RUN"; value := "a" |}]
     ++ InstDict {| instruction := "include"; value := "x" |}
     :: [InstDict {| instruction := "RUN"; value := "b" |}])
  = assemble (U := Chr.Plain) World.encode World.compress World.b64encode World.decode
      World.read_file "Dockerfile" "#!/bin/sh"
      ([InstDict {| instruction := "RUN"; value := "a" |}]
       ++ [InstDict {| instruction := "RUN"; value := "b" |}]).
Proof.
  split; [reflexivity|].
  apply (@unknown_keyword_is_dropped Chr.Plain string World.encode World.compress
           World.b64encode World.decode World.read_file
           "include" "x" "Dockerfile" "#!/bin/sh" _ _ eq_refl).
Defined.

Lemma script_is_fragments_in_order_witness :
  Forall2
    (fun i o =>
       parse_instruction (U := Chr.Plain) World.encode World.compress World.b64encode
         World.decode World.read_file i (Some "ctx/Dockerfile")
       = (fst o, Ok (snd o)))
    [InstDict {| instruction := "RUN"; value := "make" |};
     InstDict {| instruction := "COPY"; value := "app.conf /etc/app.conf" |}]
    [([], "make" ++ newline);
     ([Read "ctx/app.conf"],
      "cat << __EOFF__ | base64 -d | bunzip2 > /etc/app.conf" ++ newline
      ++ "b64(bz2(port=80))" ++ newline ++ "__EOFF__" ++ newline)] /\
  assemble (U := Chr.Plain) World.encode World.compress World.b64encode World.decode
    World.read_file "ctx/Dockerfile" ("#!/bin/sh" ++ newline)
    [InstDict {| instruction := "RUN"; value := "make" |};
     InstDict {| instruction := "COPY"; value := "app.conf /etc/app.conf" |}]
  = ([Read "ctx/app.conf"],
     Ok (("#!/bin/sh" ++ newline)
         ++ ("make" ++ newline)
         ++ "cat << __EOFF__ | base64 -d | bunzip2 > /etc/app.conf" ++ newline
         ++ "b64(bz2(port=80))" ++ newline ++ "__EOFF__" ++ newline)).
Proof.
  assert (H : Forall2
    (fun i o =>
       parse_instruction (U := Chr.Plain) World.encode World.compress World.b64encode
         World.decode World.read_file i (Some "ctx/Dockerfile")
       = (fst o, Ok (snd o)))
    [InstDict {| instruction := "RUN"; value := "make" |};
     InstDict {| instruction := "COPY"; value := "app.conf /etc/app.conf" |}]
    [([], "make" ++ newline);
     ([Read "ctx/app.conf"],
      "cat << __EOFF__ | base64 -d | bunzip2 > /etc/app.conf" ++ newline
      ++ "b64(bz2(port=80))" ++ newline ++ "__EOFF__" ++ newline)]).
  { repeat constructor. }
  split; [exact H|].
  exact (@script_is_fragments_in_order Chr.Plain string World.encode World.compress
           World.b64encode World.decode World.read_file
           "ctx/Dockerfile" _ _ ("#!/bin/sh" ++ newline) H).
Defined.

Lemma first_failure_aborts_script_witness :
  Forall2
    (fun i o =>
       parse_instruction (U := Chr.Plain) World.encode World.compress World.b64encode
         World.decode World.read_file i (Some "ctx/Dockerfile")
       = (fst o, Ok (snd o)))
    [InstDict {| instruction := "COPY"; value := "app.conf /etc/app.conf" |}]
    [([Read "ctx/app.conf"],
      "cat << __EOFF__ | base64 -d | bunzip2 > /etc/app.conf" ++ newline
      ++ "b64(bz2(port=80))" ++ newline ++ "__EOFF__" ++ newline)] /\
  parse_instruction (U := Chr.Plain) World.encode World.compress World.b64encode
    World.decode World.read_file
    (InstDict {| instruction := "ADD"; value := "http://host/x" |})
    (Some "ctx/Dockerfile")
  = ([], Raise IndexError) /\
  assemble (U := Chr.Plain) World.encode World.compress World.b64encode World.decode
    World.read_file "ctx/Dockerfile" ("#!/bin/sh" ++ newline)
    ([InstDict {| instruction := "COPY"; value := "app.conf /etc/app.conf" |}]
     ++ InstDict {| instruction := "ADD"; value := "http://host/x" |}
     :: [InstDict {| instruction := "RUN"; value := "make" |}])
  = ([Read "ctx/app.conf"], Raise IndexError).
Proof.
  assert (H : Forall2
    (fun i o =>
       parse_instruction (U := Chr.Plain) World.encode World.compress World.b64encode
         World.decode World.read_file i (Some "ctx/Dockerfile")
       = (fst o, Ok (snd o)))
    [InstDict {| instruction := "COPY"; value := "app.conf /etc/app.conf" |}]
    [([Read "ctx/app.conf"],
      "cat << __EOFF__ | base64 -d | bunzip2 > /etc/app.conf" ++ newline
      ++ "b64(bz2(port=80))" ++ newline ++ "__EOFF__" ++ newline)]).
  { repeat constructor. }
  split; [exact H|]. split; [reflexivity|].
  exact (@first_failure_aborts_script Chr.Plain string World.encode World.compress
           World.b64encode World.decode World.read_file
           "ctx/Dockerfile" _ _
           (InstDict {| instruction := "ADD"; value := "http://host/x" |})
           [] IndexError
           [InstDict {| instruction := "RUN"; value := "make" |}]
           ("#!/bin/sh" ++ newline) H eq_refl).
Defined.

Lemma script_starts_with_shebang_witness :
  shell_script (U := Chr.Plain) World.encode World.compress World.b64encode World.decode
    World.read_file false "Dockerfile" ["RUN make \"; "  install"]
  = ([], Ok ("#!/bin/sh" ++ newline ++ "make   install" ++ newline)) /\
  exists body,
    "#!/bin/sh" ++ newline ++ "make   install" ++ newline
    = "#!/bin/sh" ++ newline ++ body.
Proof.
  split; [reflexivity|].
  apply (@script_starts_with_shebang Chr.Plain string World.encode World.compress
           World.b64encode World.decode World.read_file
           false "Dockerfile" ["RUN make \"; "  install"] [] _ eq_refl).
Defined.

Lemma dollars_are_escaped_witness :
  In "ENV" ["ADD"; "ENV"; "RUN"] /\
  World.translate "ENV" "HOME=$PREFIX/home" None
  = ([], Ok ("export HOME=\$PREFIX/home" ++ newline)) /\
  guarded ("export HOME=\$PREFIX/home" ++ newline) = true.
Proof.
  assert (H : In "ENV" ["ADD"; "ENV"; "RUN"]) by (right; left; reflexivity).
  split; [exact H|]. split; [reflexivity|].
  apply (@dollars_are_escaped Chr.Plain string World.encode World.compress
           World.b64encode World.decode World.read_file
           "ENV" "HOME=$PREFIX/home" None [] _ H eq_refl).
Defined.

(** ** [main] *)

Lemma splitlines_from_clean c text : forall after_cr cur l,
  Cli.is_linebreak c = true ->
  Str.contains c cur = false ->
  In l (Cli.splitlines_from after_cr cur text) ->
  Str.contains c l = false.
Proof.
  induction text as [|a text IH]; intros after_cr cur l Hc Hcur Hl.
  - cbn in Hl. destruct (Str.is_empty cur); [contradiction|].
    destruct Hl as [<- | []]. exact Hcur.
  - cbn [Cli.splitlines_from] in Hl.
    destruct (N.eqb a Chr.nl && after_cr).
    + eapply IH; eauto.
    + destruct (Cli.is_linebreak a) eqn:Ea.
      * destruct Hl as [<- | Hl]; [exact Hcur|].
        exact (IH (N.eqb a Cli.cr) "" l Hc eq_refl Hl).
      * eapply IH; [exact Hc | | exact Hl].
        rewrite contains_app, Hcur. cbn.
        destruct (N.eqb_spec a c); [congruence | reflexivity].
Qed.

(** X18.  No line that [splitlines] returns holds a line boundary. *)
Theorem splitlines_no_linebreak c text l :
  Cli.is_linebreak c = true ->
  In l (Cli.splitlines text) ->
  Str.contains c l = false.
Proof. intros Hc. now apply splitlines_from_clean. Qed.

Section TextValues.

Context {U : Chr.Unicode}.

(** X19.  The value of an instruction read from a text holds no line
    boundary: it is one line of the script. *)
Theorem values_hold_no_linebreak c keeptabs text :
  Cli.is_linebreak c = true ->
  exists out,
    reconstruct keeptabs (Cli.splitlines text) = Ok (List.map InstDict out) /\
    forall i, In i out -> Str.contains c (value i) = false.
Proof.
  intros Hc. exists (logical keeptabs (Cli.splitlines text)).
  split; [apply reconstruct_logical|].
  intros i. apply logical_no_foreign_char.
  intros l. now apply splitlines_from_clean.
Qed.

End TextValues.

Section MainFacts.

Context {U : Chr.Unicode}.

Variable bytes : Type.
Variable encode : string -> bytes.
Variable compress : bytes -> bytes.
Variable b64encode : bytes -> bytes.
Variable decode : bytes -> string.
Variable read_file : string -> res string.
Variable stdin_read : res string.
Variable dumps : list dict -> string.

Abbreviation run_main :=
  (Cli.main encode compress b64encode decode read_file stdin_read dumps).

(** X20.  When the Dockerfile cannot be read, [main] ends with the
    exception of the read and prints nothing. *)
Theorem main_fails_when_dockerfile_unreadable a e :
  Cli.Dockerfile a <> "-" ->
  read_file (Cli.Dockerfile a) = Raise e ->
  run_main a = ([], Raise e).
Proof.
  intros Hn Hr. unfold Cli.main.
  apply string_eqb_neq in Hn. rewrite Hn. cbn [negb].
  unfold open_read. now rewrite Hr.
Qed.

(** X21.  With [--json], [main] does not fail once its input is read: it
    prints the instructions as they were reconstructed, translates
    nothing and reads no other file. *)
Theorem json_mode_never_fails a text :
  Cli.json a = true ->
  (if String.eqb (Cli.Dockerfile a) "-" then stdin_read
   else read_file (Cli.Dockerfile a)) = Ok text ->
  exists out,
    reconstruct (Cli.keeptabs a) (Cli.splitlines text) = Ok out /\
    run_main a
    = ((if String.eqb (Cli.Dockerfile a) "-" then []
        else [Read (Cli.Dockerfile a)]), Ok (dumps out)).
Proof.
  intros Hj Hin.
  exists (List.map InstDict (logical (Cli.keeptabs a) (Cli.splitlines text))).
  split; [apply reconstruct_logical|].
  unfold Cli.main, open_read.
  destruct (String.eqb (Cli.Dockerfile a) "-"); cbn [negb];
    rewrite Hin; cbn [lift bind]; rewrite reconstruct_logical, Hj;
    reflexivity.
Qed.

End MainFacts.

Lemma splitlines_no_linebreak_witness :
  Cli.is_linebreak Chr.nl = true /\
  In "ADD pkg.tgz" (Cli.splitlines WorldIO.stdin_text) /\
  Str.contains Chr.nl "ADD pkg.tgz" = false.
Proof.
  assert (H : In "ADD pkg.tgz" (Cli.splitlines WorldIO.stdin_text))
    by (right; left; reflexivity).
  split; [reflexivity|]. split; [exact H|].
  apply (@splitlines_no_linebreak Chr.nl WorldIO.stdin_text "ADD pkg.tgz"
           eq_refl H).
Defined.

Lemma values_hold_no_linebreak_witness :
  Cli.is_linebreak Cli.cr = true /\
  exists out,
    reconstruct (U := Chr.Plain) false (Cli.splitlines WorldIO.stdin_text)
    = Ok (List.map InstDict out) /\
    forall i, In i out -> Str.contains Cli.cr (value i) = false.
Proof.
  split; [reflexivity|].
  apply (@values_hold_no_linebreak Chr.Plain Cli.cr false WorldIO.stdin_text eq_refl).
Defined.

Lemma main_fails_when_dockerfile_unreadable_witness :
  "missing/Dockerfile" <> "-" /\
  World.read_file "missing/Dockerfile" = Raise (OSError "missing/Dockerfile") /\
  WorldIO.main {| Cli.json := false; Cli.shell := true; Cli.keeptabs := false;
                  Cli.Dockerfile := "missing/Dockerfile" |}
  = ([], Raise (OSError "missing/Dockerfile")).
Proof.
  assert (H : "missing/Dockerfile" <> "-") by discriminate.
  split; [exact H|]. split; [reflexivity|].
  apply (@main_fails_when_dockerfile_unreadable Chr.Plain string World.encode
           World.compress World.b64encode World.decode World.read_file
           WorldIO.stdin_read WorldIO.dumps
           {| Cli.json := false; Cli.shell := true; Cli.keeptabs := false;
              Cli.Dockerfile := "missing/Dockerfile" |}
           (OSError "missing/Dockerfile") H eq_refl).
Defined.

Lemma json_mode_never_fails_witness :
  WorldIO.stdin_read = Ok WorldIO.stdin_text /\
  WorldIO.main {| Cli.json := false; Cli.shell := false; Cli.keeptabs := false;
                  Cli.Dockerfile := "-" |}
  = ([], Raise IndexError) /\
  exists out,
    reconstruct (U := Chr.Plain) false (Cli.splitlines WorldIO.stdin_text) = Ok out /\
    WorldIO.main {| Cli.json := true; Cli.shell := false; Cli.keeptabs := false;
                    Cli.Dockerfile := "-" |}
    = ([], Ok (WorldIO.dumps out)).
Proof.
  split; [reflexivity|]. split; [reflexivity|].
  apply (@json_mode_never_fails Chr.Plain string World.encode World.compress
           World.b64encode World.decode World.read_file
           WorldIO.stdin_read WorldIO.dumps
           {| Cli.json := true; Cli.shell := false; Cli.keeptabs := false;
              Cli.Dockerfile := "-" |}
           WorldIO.stdin_text eq_refl eq_refl).
Defined.

(** ** The block of an instruction that is not implemented *)

Lemma no_linebreak_all v :
  (forall c, Cli.is_linebreak c = true -> Str.contains c v = false) ->
  Str.all (fun a => negb (Cli.is_linebreak a)) v = true.
Proof.
  induction v as [|a v IH]; intros H; [reflexivity|].
  cbn [Str.all]. rewrite IH.
  - destruct (Cli.is_linebreak a) eqn:E; [|reflexivity].
    specialize (H a E). cbn in H. now rewrite N.eqb_refl in H.
  - intros c Hc. specialize (H c Hc). cbn in H.
    apply orb_false_elim in H. apply H.
Qed.

Lemma splitlines_from_text cur v rest :
  Str.all (fun a => negb (Cli.is_linebreak a)) v = true ->
  Cli.splitlines_from false cur (v ++ rest)
  = Cli.splitlines_from false (cur ++ v) rest.
Proof.
  revert cur. induction v as [|a v IH]; intros cur H.
  - cbn. now rewrite app_nil_r.
  - cbn [Str.all] in H. apply andb_prop in H. destruct H as [Ha Hv].
    apply negb_true_iff in Ha.
    cbn [append Cli.splitlines_from]. rewrite andb_false_r, Ha, IH by exact Hv.
    now rewrite app_assoc.
Qed.

(** Lines written one after the other, a newline after each, are the
    lines that [splitlines] reads back. *)
Lemma splitlines_unlines lines :
  Forall (fun l => Str.all (fun a => negb (Cli.is_linebreak a)) l = true)
    lines ->
  Cli.splitlines (cat (List.map (fun l => l ++ newline) lines)) = lines.
Proof.
  unfold Cli.splitlines. induction 1 as [|l lines Hl _ IH]; [reflexivity|].
  cbn [List.map cat]. rewrite app_assoc, splitlines_from_text by exact Hl.
  cbn. now rewrite IH.
Qed.

Section Placeholder.

Context {U : Chr.Unicode}.

Variable bytes : Type.
Variable encode : string -> bytes.
Variable compress : bytes -> bytes.
Variable b64encode : bytes -> bytes.
Variable decode : bytes -> string.
Variable read_file : string -> res string.

Ltac comment_block kw val Hval :=
  exists ("#" ++ newline ++ "# " ++ kw ++ " not implemented" ++ newline
          ++ "# Instruction: " ++ kw ++ " " ++ val ++ newline
          ++ "#" ++ newline);
  split; [reflexivity|];
  replace ("#" ++ newline ++ "# " ++ kw ++ " not implemented" ++ newline
           ++ "# Instruction: " ++ kw ++ " " ++ val ++ newline
           ++ "#" ++ newline)
    with (cat (List.map (fun l => l ++ newline)
                 ["#"; "# " ++ kw ++ " not implemented";
                  ("# Instruction: " ++ kw ++ " ") ++ val; "#"]))
    by (cbn [List.map cat]; rewrite ?app_assoc, ?app_nil_r; reflexivity);
  rewrite splitlines_unlines;
  [ repeat constructor
  | repeat constructor; rewrite ?all_app, ?Hval; reflexivity ].

(** X22.  For an instruction that is known and not translated, and a value
    that holds no line boundary, every line of the fragment is a shell
    comment. *)
Theorem placeholder_is_comment_only kw val dfile :
  In kw unimplemented ->
  (forall c, Cli.is_linebreak c = true -> Str.contains c val = false) ->
  exists frag,
    translate encode compress b64encode decode read_file kw val dfile
    = ([], Ok frag) /\
    Forall (fun l => Str.startswith Chr.hash l = true) (Cli.splitlines frag).
Proof.
  intros Hkw Hval. apply no_linebreak_all in Hval.
  unfold unimplemented in Hkw. cbn [In] in Hkw.
  repeat (destruct Hkw as [<- | Hkw];
          [match goal with
           | |- context [translate _ _ _ _ _ ?k _ _] =>
               comment_block k val Hval
           end|]).
  contradiction.
Qed.

End Placeholder.

Lemma placeholder_is_comment_only_witness :
  In "EXPOSE" unimplemented /\
  (forall c, Cli.is_linebreak c = true ->
             Str.contains c "80/tcp; reboot" = false) /\
  exists frag,
    World.translate "EXPOSE" "80/tcp; reboot" None = ([], Ok frag) /\
    Forall (fun l => Str.startswith Chr.hash l = true) (Cli.splitlines frag).
Proof.
  assert (H1 : In "EXPOSE" unimplemented) by (right; right; left; reflexivity).
  assert (H2 : forall c, Cli.is_linebreak c = true ->
                         Str.contains c "80/tcp; reboot" = false).
  { intros c Hc. unfold Cli.is_linebreak in Hc. cbn [Str.contains].
    to_arith;
      repeat match goal with
             | |- context [N.eqb ?d c] =>
                 replace (N.eqb d c) with false
                   by (symmetry; apply N.eqb_neq; lia)
             end; reflexivity. }
  split; [exact H1|]. split; [exact H2|].
  apply (@placeholder_is_comment_only Chr.Plain string World.encode World.compress
           World.b64encode World.decode World.read_file
           "EXPOSE" "80/tcp; reboot" None H1 H2).
Defined.
